(** * Library Inventory Manager (assignment3.py): a shallow embedding

    The program keeps a list of [Book] objects in memory and mirrors it in
    one JSON file.  The embedding follows the source method by method:

    - a Python [str] is a [string] (UTF-8 bytes for text outside ASCII);
    - the [Book] dataclass is a record whose six fields are strings, as the
      dataclass declares them;
    - a method is a computation in a state-and-exception monad: it receives
      the object's state and gives back either a result or the exception it
      raised, together with the new state;
    - [self.books] is a list; a reference to one of its objects is the
      position of the object in that list (no object occurs twice in it:
      [add_book] refuses a second object with the same ISBN, and
      [load_from_file] creates a fresh object per record);
    - the backing file, the write faults of the file system, the clock and
      the log are explicit parts of the state or explicit arguments. *)

From stdpp Require Import base option list strings gmap fin_maps.
From Stdlib Require Import ZArith Ascii String.

Open Scope string_scope.
Set Warnings "-register-all".

(** ** Exceptions, results, and the monad of methods *)

(** The exception classes the program raises or catches.  The ones raised
    by the program's own [raise] statements carry their message. *)
Inductive exn : Type :=
  | Exception (msg : string)          (* raise Exception(...) *)
  | ValueError (msg : string)         (* raise ValueError(...) *)
  | FileNotFoundError (msg : string)  (* raise FileNotFoundError(...) *)
  | TypeError                         (* raised by the interpreter *)
  | JSONDecodeError                   (* raised by json.load *)
  | OSError (msg : string).           (* raised by open, read or write *)

(** [str(e)].  The text of the two exceptions the interpreter and the json
    module raise is theirs to choose; the program never prints it. *)
Definition str (e : exn) : string :=
  match e with
  | Exception msg | ValueError msg | FileNotFoundError msg | OSError msg => msg
  | TypeError | JSONDecodeError => ""
  end.

Inductive outcome (A : Type) : Type :=
  | Ok (a : A)
  | Raise (e : exn).
Arguments Ok {A} a.
Arguments Raise {A} e.

(** A method over a state [S]: what it returns or raises, and the state it
    leaves behind.  A raise keeps the mutations made before it. *)
Definition M (S A : Type) : Type := S → outcome A * S.

Definition ret {S A} (a : A) : M S A := λ s, (Ok a, s).
Definition raise {S A} (e : exn) : M S A := λ s, (Raise e, s).
Definition bind {S A B} (m : M S A) (k : A → M S B) : M S B :=
  λ s, match m s with
       | (Ok a, s') => k a s'
       | (Raise e, s') => (Raise e, s')
       end.
Definition get {S} : M S S := λ s, (Ok s, s).
Definition put {S} (s : S) : M S unit := λ _, (Ok tt, s).
Definition gets {S A} (f : S → A) : M S A := λ s, (Ok (f s), s).
Definition modify {S} (f : S → S) : M S unit := λ s, (Ok tt, f s).
Definition lift {S A} (r : outcome A) : M S A := λ s, (r, s).

(** [try: m except h]: the handler [h] receives the exception. *)
Definition try_except {S A} (m : M S A) (h : exn → M S A) : M S A :=
  λ s, match m s with
       | (Ok a, s') => (Ok a, s')
       | (Raise e, s') => h e s'
       end.

Notation "x <- c1 ;; c2" := (bind c1 (λ x, c2))
  (at level 100, c1 at next level, right associativity).

(** ** The clock *)

(** What [datetime.datetime.now()] returns, up to the second.  The class
    keeps 1 <= year <= 9999, month <= 12, day <= 31, hour <= 23 and
    minute, second <= 59. *)
Record datetime : Type := mk_datetime {
  year : nat; month : nat; day : nat;
  hour : nat; minute : nat; second : nat
}.

Definition digit (n : nat) : ascii := ascii_of_nat (48 + n mod 10).

(** "%02d" and "%04d" on the ranges above. *)
Definition d2 (n : nat) : string :=
  String (digit (n / 10)) (String (digit n) "").
Definition d4 (n : nat) : string :=
  String (digit (n / 1000)) (String (digit (n / 100)) (d2 n)).

(** [isoformat(timespec="seconds")] of a naive datetime:
    YYYY-MM-DDTHH:MM:SS. *)
Definition isoformat (t : datetime) : string :=
  d4 (year t) +:+ "-" +:+ d2 (month t) +:+ "-" +:+ d2 (day t) +:+ "T" +:+
  d2 (hour t) +:+ ":" +:+ d2 (minute t) +:+ ":" +:+ d2 (second t).

(** ** Decoded JSON *)

(** What [json.load] returns: None, a bool, an int, a str, a list or a dict
    with str keys.  The values of a dict are strings, which is what every
    field of a [Book] is; JSON objects holding other values, and numbers
    with a fraction or an exponent, are outside the model. *)
Inductive json : Type :=
  | JNull
  | JBool (b : bool)
  | JInt (n : Z)
  | JStr (s : string)
  | JList (items : list json)
  | JDict (members : gmap string string).

(** ** class Book *)

Module Book.

Record t : Type := mk {
  title : string;
  author : string;
  isbn : string;
  status : string;
  issued_to : string;
  issued_on : string
}.

(** The generated [__init__(self, title, author, isbn, status="available",
    issued_to="", issued_on="")], called with keyword arguments only, as
    [Book( **item )] and [Book(title=t, author=a, isbn=i)] do: a keyword that
    is no field, or a missing [title], [author] or [isbn], is a TypeError. *)
Definition fields : list string :=
  ["title"; "author"; "isbn"; "status"; "issued_to"; "issued_on"].

Definition init (kwargs : gmap string string) : outcome t :=
  if bool_decide (map_Forall (λ k _, k ∈ fields) kwargs) then
    match kwargs !! "title", kwargs !! "author", kwargs !! "isbn" with
    | Some title, Some author, Some isbn =>
        Ok (mk title author isbn
              (default "available" (kwargs !! "status"))
              (default "" (kwargs !! "issued_to"))
              (default "" (kwargs !! "issued_on")))
    | _, _, _ => Raise TypeError
    end
  else Raise TypeError.

(** [Book(title=t, author=a, isbn=i)], which cannot raise. *)
Definition new (title author isbn : string) : t :=
  mk title author isbn "available" "" "".

(** [asdict(self)] *)
Definition to_dict (self : t) : gmap string string :=
  list_to_map [("title", title self); ("author", author self);
               ("isbn", isbn self); ("status", status self);
               ("issued_to", issued_to self); ("issued_on", issued_on self)].

Definition is_available (self : t) : bool :=
  bool_decide (status self = "available").

Definition issue (user_name : string) (now : datetime) : M t unit :=
  self <- get ;;
  if negb (is_available self) then
    raise (Exception ("Book already issued to " +:+ issued_to self +:+ "."))
  else
    put (mk (title self) (author self) (isbn self)
            "issued" user_name (isoformat now)).

Definition return_book : M t unit :=
  self <- get ;;
  if is_available self then
    raise (Exception "Book is already available.")
  else
    put (mk (title self) (author self) (isbn self) "available" "" "").

(** [__str__]: one line, which names the borrower when the book is issued. *)
Definition __str__ (self : t) : string :=
  let info := title self +:+ " by " +:+ author self +:+ " | ISBN: " +:+
              isbn self +:+ " | Status: " +:+ status self in
  if bool_decide (status self = "issued") then
    info +:+ " | Issued to: " +:+ issued_to self +:+ " on " +:+ issued_on self
  else info.

End Book.

(** ** The file system and the log *)

(** What is stored under [storage_path], as reading it back sees it. *)
Inductive content : Type :=
  | Unreadable (msg : string)  (* open("r") or the read raises OSError *)
  | NotJSON                    (* text that json.load rejects *)
  | Document (data : json)     (* text that json.load decodes to [data] *)
  | Inaccessible (msg : string).
      (* the path cannot be examined: stat raises an OSError other than
         "not found", for instance EACCES on a directory of the path *)

(** How the file system answers the next [open("w")] and the writes that
    follow it. *)
Inductive write_fault : Type :=
  | NoFault
  | OpenFails (msg : string)   (* open raises; the file is untouched *)
  | WriteFails (msg : string). (* open truncates, then a write raises *)

Inductive level : Type := INFO | ERROR.

(** A log record; [exc_info] is set by [logger.exception], which logs at
    level ERROR and appends the traceback. *)
Record log_record : Type := mk_log {
  levelname : level;
  message : string;
  exc_info : bool
}.

(** ** class LibraryInventory *)

Module LibraryInventory.

(** The object ([books]; [storage_path] names the one file [file]) together
    with its environment. *)
Record t : Type := mk {
  books : list Book.t;
  file : option content;   (* None: the path does not exist *)
  fault : write_fault;
  log : list log_record
}.

Definition set_books (bs : list Book.t) (self : t) : t :=
  mk bs (file self) (fault self) (log self).
Definition set_file (f : option content) (self : t) : t :=
  mk (books self) f (fault self) (log self).
Definition set_fault (x : write_fault) (self : t) : t :=
  mk (books self) (file self) x (log self).

(** The state after the logger has handled one more record. *)
Definition logged (lv : level) (msg : string) (exc : bool) (self : t) : t :=
  mk (books self) (file self) (fault self) (log self ++ [mk_log lv msg exc]).

Definition logger (lv : level) (msg : string) (exc : bool) : M t unit :=
  modify (logged lv msg exc).
Definition logger_info (msg : string) : M t unit := logger INFO msg false.
Definition logger_error (msg : string) : M t unit := logger ERROR msg false.
Definition logger_exception (msg : string) : M t unit := logger ERROR msg true.

(** [json.dump([b.to_dict() for b in self.books], f, indent=2)] *)
Definition dumped (bs : list Book.t) : json :=
  JList ((λ b, JDict (Book.to_dict b)) <$> bs).

(** [with self.storage_path.open("w") as f: json.dump(..., f, indent=2)].
    A write that fails half-way leaves a truncated text, which is no JSON
    document. *)
Definition write_books : M t unit := λ self,
  match fault self with
  | NoFault => (Ok tt, set_file (Some (Document (dumped (books self)))) self)
  | OpenFails msg => (Raise (OSError msg), self)
  | WriteFails msg => (Raise (OSError msg), set_file (Some NotJSON) self)
  end.

Definition save_to_file : M t unit :=
  try_except write_books
    (λ e, logger_error ("Failed to save: " +:+ str e)).

(** [self.storage_path.exists()]: pathlib answers False for a path that is
    not there and lets every other OSError of stat through. *)
Definition path_exists : M t bool := λ self,
  match file self with
  | None => (Ok false, self)
  | Some (Inaccessible msg) => (Raise (OSError msg), self)
  | Some _ => (Ok true, self)
  end.

(** [with self.storage_path.open("r") as f: data = json.load(f)] *)
Definition read_json : M t json := λ self,
  match file self with
  | None => (Raise (FileNotFoundError "catalog.json"), self)
  | Some (Unreadable msg) | Some (Inaccessible msg) =>
      (Raise (OSError msg), self)
  | Some NotJSON => (Raise JSONDecodeError, self)
  | Some (Document data) => (Ok data, self)
  end.

(** [for item in data]: a list gives its items, a str its characters, a
    dict its keys; nothing else is iterable. *)
Definition iter (data : json) : outcome (list json) :=
  match data with
  | JList items => Ok items
  | JStr s => Ok ((λ c, JStr (String c "")) <$> list_ascii_of_string s)
  | JDict d => Ok (JStr <$> (map_to_list d).*1)
  | JNull | JBool _ | JInt _ => Raise TypeError
  end.

(** [Book( **item )]: only a dict can be unpacked. *)
Definition Book_from (item : json) : outcome Book.t :=
  match item with
  | JDict kwargs => Book.init kwargs
  | _ => Raise TypeError
  end.

(** [[Book( **item ) for item in items]]: the first raise ends it. *)
Fixpoint construct_all (items : list json) : outcome (list Book.t) :=
  match items with
  | [] => Ok []
  | item :: rest =>
      match Book_from item with
      | Raise e => Raise e
      | Ok b =>
          match construct_all rest with
          | Raise e => Raise e
          | Ok bs => Ok (b :: bs)
          end
      end
  end.

(** [[Book( **item ) for item in data]] *)
Definition books_of (data : json) : outcome (list Book.t) :=
  match iter data with
  | Raise e => Raise e
  | Ok items => construct_all items
  end.

Definition load_from_file : M t unit :=
  try_except
    (present <- path_exists ;;
     if negb present then
       modify (set_books [])
     else
       data <- read_json ;;
       bs <- lift (books_of data) ;;
       modify (set_books bs))
    (λ e, match e with
          | JSONDecodeError =>
              _ <- logger_error "JSON corrupt. Starting empty catalog." ;;
              modify (set_books [])
          | _ =>
              _ <- logger_exception "Unexpected error loading file." ;;
              modify (set_books [])
          end).

Definition _ensure_storage : M t unit :=
  present <- path_exists ;;
  if negb present then save_to_file else ret tt.

(** [LibraryInventory()] in an environment where the file is [f] and the
    file system answers writes with [x]. *)
Definition __init__ (f : option content) (x : write_fault) : outcome unit * t :=
  (_ <- _ensure_storage ;; load_from_file) (mk [] f x []).

Definition add_book (book : Book.t) : M t unit :=
  bs <- gets books ;;
  if existsb (λ b, bool_decide (Book.isbn b = Book.isbn book)) bs then
    raise (ValueError "ISBN already exists in catalog.")
  else
    _ <- modify (λ self, set_books (books self ++ [book]) self) ;;
    _ <- save_to_file ;;
    logger_info ("Book added: " +:+ Book.title book).

(** [q in s] on strings. *)
Fixpoint contains (q s : string) : bool :=
  String.prefix q s ||
  match s with
  | EmptyString => false
  | String _ s' => contains q s'
  end.

Section Search.

(** [str.lower], which Python defines over all of Unicode. *)
Variable lower : string → string.

Definition search_by_title (text : string) : M t (list Book.t) :=
  let q := lower text in
  gets (λ self,
    List.filter (λ b, contains q (lower (Book.title b))) (books self)).

End Search.

(** The object found is returned by reference: its position in
    [self.books], with the state it has there. *)
Definition search_by_isbn (isbn : string) : M t (option (nat * Book.t)) :=
  gets (λ self, list_find (λ b, Book.isbn b = isbn) (books self)).

Definition display_all : M t (list Book.t) := gets books.

(** A method call on the object behind a reference: the object is mutated
    in place. *)
Definition call {A} (ref : nat * Book.t) (m : M Book.t A) : M t A := λ self,
  let '(r, b') := m ref.2 in
  (r, set_books (<[ref.1 := b']> (books self)) self).

Definition issue_book (isbn user_name : string) (now : datetime) : M t unit :=
  book <- search_by_isbn isbn ;;
  match book with
  | None => raise (FileNotFoundError "Book with that ISBN not found.")
  | Some ref =>
      _ <- call ref (Book.issue user_name now) ;;
      save_to_file
  end.

Definition return_book (isbn : string) : M t unit :=
  book <- search_by_isbn isbn ;;
  match book with
  | None => raise (FileNotFoundError "Book not found.")
  | Some ref =>
      _ <- call ref Book.return_book ;;
      save_to_file
  end.

End LibraryInventory.

(** ** The menu *)

Module CLI.

(** The running program: the module-level [inventory], the lines still to
    be read from standard input, what has been written to standard output
    (one entry per [print] and per prompt), and the clock, which answers the
    n-th call of an issue with [clock n]. *)
Record t : Type := mk {
  inventory : LibraryInventory.t;
  stdin : list string;
  stdout : list string;
  clock : nat → datetime;
  ticks : nat
}.

(** How a piece of the menu code ends: with a value, with an exception of
    the inventory that nothing caught, with the EOFError of [input] at the
    end of the input, or with the SystemExit of [sys.exit]. *)
Inductive signal (A : Type) : Type :=
  | Val (a : A)
  | Uncaught (e : exn)
  | EOFError
  | SystemExit (code : Z).
Arguments Val {A} a.
Arguments Uncaught {A} e.
Arguments EOFError {A}.
Arguments SystemExit {A} code.

Definition IO (A : Type) : Type := t → signal A * t.

Definition io_ret {A} (a : A) : IO A := λ c, (Val a, c).
Definition io_bind {A B} (m : IO A) (k : A → IO B) : IO B :=
  λ c, match m c with
       | (Val a, c') => k a c'
       | (Uncaught e, c') => (Uncaught e, c')
       | (EOFError, c') => (EOFError, c')
       | (SystemExit code, c') => (SystemExit code, c')
       end.

Notation "x <~ c1 ;; c2" := (io_bind c1 (λ x, c2))
  (at level 100, c1 at next level, right associativity).

Definition set_inventory (inv : LibraryInventory.t) (c : t) : t :=
  mk inv (stdin c) (stdout c) (clock c) (ticks c).

Definition print (line : string) : IO unit := λ c,
  (Val tt, mk (inventory c) (stdin c) (stdout c ++ [line]) (clock c) (ticks c)).

(** [input(prompt)]: the prompt is written, then a line is read. *)
Definition input (prompt : string) : IO string := λ c,
  match stdin c with
  | [] =>
      (EOFError,
       mk (inventory c) [] (stdout c ++ [prompt]) (clock c) (ticks c))
  | line :: rest =>
      (Val line,
       mk (inventory c) rest (stdout c ++ [prompt]) (clock c) (ticks c))
  end.

Definition sys_exit {A} (code : Z) : IO A := λ c, (SystemExit code, c).

(** The time the next issue will see. *)
Definition now : IO datetime := λ c,
  (Val (clock c (ticks c)),
   mk (inventory c) (stdin c) (stdout c) (clock c) (S (ticks c))).

(** A call of a method of [inventory] outside any [try]. *)
Definition call (A : Type) (m : M LibraryInventory.t A) : IO A := λ c,
  match m (inventory c) with
  | (Ok a, inv) => (Val a, set_inventory inv c)
  | (Raise e, inv) => (Uncaught e, set_inventory inv c)
  end.
Arguments call {A} m.

(** [try: m; print(done) except Exception as e: print("Error:", e)] *)
Definition try_print (m : M LibraryInventory.t unit) (done : string) : IO unit :=
  λ c,
    match m (inventory c) with
    | (Ok _, inv) => print done (set_inventory inv c)
    | (Raise e, inv) => print ("Error: " +:+ str e) (set_inventory inv c)
    end.

(** [for b in books: print(b)] *)
Fixpoint print_books (bs : list Book.t) : IO unit :=
  match bs with
  | [] => io_ret tt
  | b :: rest => _ <~ print (Book.__str__ b) ;; print_books rest
  end.

Definition menu : IO string :=
  _ <~ print (String "010" "========== Library Inventory Manager ==========") ;;
  _ <~ print "1. Add Book" ;;
  _ <~ print "2. Issue Book" ;;
  _ <~ print "3. Return Book" ;;
  _ <~ print "4. View All Books" ;;
  _ <~ print "5. Search by Title" ;;
  _ <~ print "6. Search by ISBN" ;;
  _ <~ print "7. Exit" ;;
  input "Enter choice (1-7): ".

Definition view_books : IO unit :=
  bs <~ call LibraryInventory.display_all ;;
  match bs with
  | [] => print "No books in catalog."
  | _ => print_books bs
  end.

Section Flows.

(** [str.strip] and [str.lower], which Python defines over all of
    Unicode. *)
Variable strip : string → string.
Variable lower : string → string.

Definition add_book_flow : IO unit :=
  t <~ input "Title: " ;;
  a <~ input "Author: " ;;
  i <~ input "ISBN: " ;;
  if bool_decide (strip t = "") || bool_decide (strip i = "") then
    print "Title and ISBN required!"
  else
    try_print
      (LibraryInventory.add_book (Book.new (strip t) (strip a) (strip i)))
      "Book added.".

Definition issue_flow : IO unit :=
  isbn <~ input "ISBN: " ;;
  user <~ input "Issue to: " ;;
  time <~ now ;;
  try_print (LibraryInventory.issue_book (strip isbn) (strip user) time)
            "Book issued.".

Definition return_flow : IO unit :=
  isbn <~ input "ISBN: " ;;
  try_print (LibraryInventory.return_book (strip isbn)) "Book returned.".

Definition search_title : IO unit :=
  text <~ input "Title contains: " ;;
  res <~ call (LibraryInventory.search_by_title lower (strip text)) ;;
  match res with
  | [] => print "No results."
  | _ => print_books res
  end.

Definition search_isbn : IO unit :=
  isbn <~ input "ISBN: " ;;
  b <~ call (LibraryInventory.search_by_isbn (strip isbn)) ;;
  match b with
  | None => print "Not found."
  | Some ref => print (Book.__str__ ref.2)
  end.

(** The body of the loop of [main] after the choice has been read. *)
Definition dispatch (choice : string) : IO unit :=
  if bool_decide (choice = "1") then add_book_flow
  else if bool_decide (choice = "2") then issue_flow
  else if bool_decide (choice = "3") then return_flow
  else if bool_decide (choice = "4") then view_books
  else if bool_decide (choice = "5") then search_title
  else if bool_decide (choice = "6") then search_isbn
  else if bool_decide (choice = "7") then
    _ <~ print "Goodbye!" ;; sys_exit 0
  else print "Invalid option!".

(** [while True: ...], run for at most [fuel] rounds; [None] when the
    rounds are used up before the loop has ended. *)
Fixpoint main_loop (fuel : nat) (c : t) : option (signal unit * t) :=
  match fuel with
  | 0 => None
  | S fuel' =>
      match (choice <~ menu ;; dispatch choice) c with
      | (Val _, c') => main_loop fuel' c'
      | r => Some r
      end
  end.

(** Every round reads a line, so one round more than there are lines is
    enough. *)
Definition main (c : t) : option (signal unit * t) :=
  main_loop (S (List.length (stdin c))) c.

End Flows.

End CLI.

(** ** Sessions *)

(** The operations of the catalog a caller can invoke, and a run of several
    of them in sequence.  The menu loop catches what an operation raises and
    goes on, so a run keeps the state the failed operation left. *)
Inductive op : Type :=
  | Add (book : Book.t)
  | Issue (isbn user_name : string) (now : datetime)
  | Return (isbn : string)
  | Load.

Definition step (o : op) : M LibraryInventory.t unit :=
  match o with
  | Add book => LibraryInventory.add_book book
  | Issue isbn user_name now => LibraryInventory.issue_book isbn user_name now
  | Return isbn => LibraryInventory.return_book isbn
  | Load => LibraryInventory.load_from_file
  end.

Fixpoint session (ops : list op) (self : LibraryInventory.t)
  : LibraryInventory.t :=
  match ops with
  | [] => self
  | o :: rest => session rest (step o self).2
  end.

(** ** The notions the specification uses *)

(** The status invariant of the data model: each of [issued_to] and
    [issued_on] is non-empty exactly when the book is issued. *)
Definition consistent (b : Book.t) : Prop :=
  (Book.issued_to b ≠ "" ↔ Book.status b = "issued") ∧
  (Book.issued_on b ≠ "" ↔ Book.status b = "issued").

(** Every record the backing file holds satisfies the invariant. *)
Definition stored_consistent (f : option content) : Prop :=
  ∀ data bs,
    f = Some (Document data) →
    LibraryInventory.books_of data = Ok bs →
    Forall consistent bs.

(** What an operation must be given for the invariant to survive it. *)
Definition permitted (o : op) : Prop :=
  match o with
  | Add book => consistent book
  | Issue _ user_name _ => user_name ≠ ""
  | Return _ | Load => True
  end.

(** [q] occurs in [s]. *)
Definition Substring (q s : string) : Prop :=
  ∃ pre post, s = pre +:+ q +:+ post.

(** [found] lists exactly the records of [bs] that satisfy [P], in the
    order of [bs]. *)
Inductive selected (P : Book.t → Prop) : list Book.t → list Book.t → Prop :=
  | selected_nil : selected P [] []
  | selected_keep b bs found :
      P b → selected P bs found → selected P (b :: bs) (b :: found)
  | selected_skip b bs found :
      ¬ P b → selected P bs found → selected P (b :: bs) found.

(** [b], at position [i], is the first record of [bs] with this ISBN. *)
Definition first_match (isbn : string) (bs : list Book.t)
    (i : nat) (b : Book.t) : Prop :=
  bs !! i = Some b ∧ Book.isbn b = isbn ∧
  ∀ j b', bs !! j = Some b' → j < i → Book.isbn b' ≠ isbn.

(** [b], at position [j], comes after another record with its ISBN. *)
Definition later_duplicate (bs : list Book.t) (j : nat) (b : Book.t) : Prop :=
  bs !! j = Some b ∧
  ∃ i b0, i < j ∧ bs !! i = Some b0 ∧ Book.isbn b0 = Book.isbn b.

(** A record of the file format that [Book] can be built from: a mapping
    that names [title], [author] and [isbn] and no key besides the six
    fields. *)
Definition record (item : json) : Prop :=
  ∃ kwargs, item = JDict kwargs ∧
    is_Some (kwargs !! "title") ∧ is_Some (kwargs !! "author") ∧
    is_Some (kwargs !! "isbn") ∧
    ∀ k, is_Some (kwargs !! k) → k ∈ Book.fields.

(** The file format: readable JSON text with an array at the top level,
    every element of it a record.  Content that is not of this form is not
    valid structured data. *)
Definition array_of_records (c : content) : Prop :=
  ∃ items, c = Document (JList items) ∧ Forall record items.

(** The two top-level values that are no array and yet give nothing when
    iterated over: the empty string and the empty object. *)
Definition empty_iterable (c : content) : Prop :=
  c = Document (JStr "") ∨ c = Document (JDict ∅).

(** The file mirrors the collection in memory. *)
Definition synced (self : LibraryInventory.t) : Prop :=
  LibraryInventory.file self =
    Some (Document (LibraryInventory.dumped (LibraryInventory.books self))).

(** No two records of the collection share an ISBN. *)
Definition unique_isbns (bs : list Book.t) : Prop := NoDup (Book.isbn <$> bs).

(** Every list of records the backing file can be read as has distinct
    ISBNs. *)
Definition stored_unique (f : option content) : Prop :=
  ∀ data bs,
    f = Some (Document data) →
    LibraryInventory.books_of data = Ok bs →
    unique_isbns bs.

(** What identifies a record: the fields no method assigns. *)
Definition identity (b : Book.t) : string * string * string :=
  (Book.title b, Book.author b, Book.isbn b).

(** The records the menu can bring about: a title and an ISBN that are not
    blank, and either the untouched state of a new or returned book or the
    state of an issued one. *)
Definition menu_book (b : Book.t) : Prop :=
  Book.title b ≠ "" ∧ Book.isbn b ≠ "" ∧
  ((Book.status b = "available" ∧ Book.issued_to b = "" ∧ Book.issued_on b = "") ∨
   (Book.status b = "issued" ∧ Book.issued_on b ≠ "")).

(** An operation the menu can ask for: it never reloads the file, and it
    adds only new books with a title and an ISBN. *)
Definition menu_op (o : op) : Prop :=
  match o with
  | Add book =>
      ∃ t a i, book = Book.new t a i ∧ t ≠ "" ∧ i ≠ ""
  | Issue _ _ _ | Return _ => True
  | Load => False
  end.

(** What every piece of the menu code does, however it ends: the inventory
    has gone through some operations the menu can ask for, the input has
    not grown, no exception of the inventory escapes, EOFError comes with
    the input used up, and SystemExit comes with code 0 after "Goodbye!". *)
Definition tame {A} (m : CLI.IO A) : Prop :=
  ∀ c r c', m c = (r, c') →
    (∃ ops, Forall menu_op ops ∧
            CLI.inventory c' = session ops (CLI.inventory c)) ∧
    (List.length (CLI.stdin c') ≤ List.length (CLI.stdin c))%nat ∧
    match r with
    | CLI.Val _ => True
    | CLI.Uncaught _ => False
    | CLI.EOFError => CLI.stdin c' = []
    | CLI.SystemExit code =>
        code = 0%Z ∧ last (CLI.stdout c') = Some "Goodbye!"
    end.

(** A piece of the menu code that leaves the inventory alone. *)
Definition quiet {A} (m : CLI.IO A) : Prop :=
  ∀ c, CLI.inventory (m c).2 = CLI.inventory c.

(** [str.strip] on ASCII text: the characters Python counts as white
    space below 128. *)
Definition ascii_space (c : ascii) : bool :=
  let n := nat_of_ascii c in
  ((9 <=? n)%nat && (n <=? 13)%nat) || ((28 <=? n)%nat && (n <=? 32)%nat).

Fixpoint lstrip (l : list ascii) : list ascii :=
  match l with
  | c :: l' => if ascii_space c then lstrip l' else l
  | [] => []
  end.

Definition ascii_strip (s : string) : string :=
  string_of_list_ascii
    (rev (lstrip (rev (lstrip (list_ascii_of_string s))))).

(** [str.lower] on ASCII text. *)
Definition ascii_lower_char (c : ascii) : ascii :=
  let n := nat_of_ascii c in
  if (65 <=? n)%nat && (n <=? 90)%nat then ascii_of_nat (n + 32) else c.

Fixpoint ascii_lower (s : string) : string :=
  match s with
  | EmptyString => EmptyString
  | String c s' => String (ascii_lower_char c) (ascii_lower s')
  end.

(** ** Sample data *)

Definition dune : Book.t := Book.new "Dune" "Herbert" "111".
Definition foundation : Book.t := Book.new "Foundation" "Asimov" "222".
Definition noon : datetime := mk_datetime 2024 3 7 12 0 0.

(** A fresh inventory in an empty directory. *)
Definition fresh : LibraryInventory.t :=
  (LibraryInventory.__init__ None NoFault).2.

(** The same on a file system that refuses to open the file for writing. *)
Definition read_only : LibraryInventory.t :=
  (LibraryInventory.__init__ None (OpenFails "[Errno 13] Permission denied: 'catalog.json'")).2.

(** A shelf of two books, one of them on loan. *)
Definition shelf : LibraryInventory.t :=
  session [Add dune; Add foundation; Issue "111" "Alice" noon] fresh.

(** A file whose second element lacks an author and an ISBN. *)
Definition torn : content :=
  Document (JList [JDict (Book.to_dict dune); JDict {["title" := "Orphan"]}]).

(** A file with two records under one ISBN, the second with a status the
    data model does not know. *)
Definition twins : list Book.t :=
  [dune; Book.mk "Dune (large print)" "Herbert" "111" "lost" "" ""].

(** The program started in an empty directory, with these lines typed. *)
Definition console (lines : list string) : CLI.t :=
  CLI.mk fresh lines [] (λ _, noon) 0.

(** * Properties *)

Import LibraryInventory.

(** ** The monad *)

Lemma bind_ok {S A B} (m : M S A) (k : A → M S B) s a s' :
  m s = (Ok a, s') → bind m k s = k a s'.
Proof. unfold bind. by intros ->. Qed.

Lemma bind_raise {S A B} (m : M S A) (k : A → M S B) s e s' :
  m s = (Raise e, s') → bind m k s = (Raise e, s').
Proof. unfold bind. by intros ->. Qed.

(** ** Book *)

Lemma isoformat_nonempty now : isoformat now ≠ "".
Proof. destruct now. discriminate. Qed.

Lemma is_available_true b : Book.is_available b = true ↔ Book.status b = "available".
Proof. unfold Book.is_available. by rewrite bool_decide_eq_true. Qed.

Lemma is_available_false b : Book.is_available b = false ↔ Book.status b ≠ "available".
Proof. unfold Book.is_available. by rewrite bool_decide_eq_false. Qed.

Lemma issue_available user_name now b :
  Book.is_available b = true →
  Book.issue user_name now b =
    (Ok tt, Book.mk (Book.title b) (Book.author b) (Book.isbn b)
                    "issued" user_name (isoformat now)).
Proof. intros H. unfold Book.issue, bind, get, put. by rewrite H. Qed.

Lemma issue_unavailable user_name now b :
  Book.is_available b = false →
  Book.issue user_name now b =
    (Raise (Exception ("Book already issued to " +:+ Book.issued_to b +:+ ".")), b).
Proof. intros H. unfold Book.issue, bind, get, raise. by rewrite H. Qed.

Lemma return_unavailable b :
  Book.is_available b = false →
  Book.return_book b =
    (Ok tt, Book.mk (Book.title b) (Book.author b) (Book.isbn b) "available" "" "").
Proof. intros H. unfold Book.return_book, bind, get, put. by rewrite H. Qed.

Lemma return_available b :
  Book.is_available b = true →
  Book.return_book b = (Raise (Exception "Book is already available."), b).
Proof. intros H. unfold Book.return_book, bind, get, raise. by rewrite H. Qed.

(** A method that raises leaves the book as it was; one that returns keeps
    the ISBN. *)
Lemma issue_raise_unchanged user_name now b e :
  (Book.issue user_name now b).1 = Raise e → (Book.issue user_name now b).2 = b.
Proof.
  destruct (Book.is_available b) eqn:E.
  - by rewrite issue_available.
  - by rewrite issue_unavailable.
Qed.

Lemma return_raise_unchanged b e :
  (Book.return_book b).1 = Raise e → (Book.return_book b).2 = b.
Proof.
  destruct (Book.is_available b) eqn:E.
  - by rewrite return_available.
  - by rewrite return_unavailable.
Qed.

(** ** Serialisation *)

Lemma init_to_dict b : Book.init (Book.to_dict b) = Ok b.
Proof. destruct b. vm_compute. reflexivity. Qed.

Lemma construct_all_dumped bs :
  construct_all ((λ b, JDict (Book.to_dict b)) <$> bs) = Ok bs.
Proof.
  induction bs as [|b bs IH]; [done|].
  rewrite fmap_cons. simpl. by rewrite init_to_dict, IH.
Qed.

Lemma books_of_dumped bs : books_of (dumped bs) = Ok bs.
Proof. apply construct_all_dumped. Qed.

(** ** save_to_file and load_from_file, case by case *)

Lemma save_to_file_eq self :
  save_to_file self =
    (Ok tt,
     match fault self with
     | NoFault => set_file (Some (Document (dumped (books self)))) self
     | OpenFails msg => logged ERROR ("Failed to save: " +:+ msg) false self
     | WriteFails msg =>
         logged ERROR ("Failed to save: " +:+ msg) false
                (set_file (Some NotJSON) self)
     end).
Proof.
  unfold save_to_file, try_except, write_books.
  by destruct (fault self).
Qed.

Lemma save_to_file_ok self : (save_to_file self).1 = Ok tt.
Proof. by rewrite save_to_file_eq. Qed.

Lemma save_to_file_books self : books (save_to_file self).2 = books self.
Proof. rewrite save_to_file_eq. by destruct (fault self). Qed.

Lemma save_to_file_fault self : fault (save_to_file self).2 = fault self.
Proof. rewrite save_to_file_eq. by destruct self as [? ? [] ?]. Qed.

Lemma Book_from_raise item e : Book_from item = Raise e → e = TypeError.
Proof.
  destruct item as [| | | | |kw]; simpl; try congruence.
  unfold Book.init. repeat case_match; congruence.
Qed.

Lemma construct_all_raise items e : construct_all items = Raise e → e = TypeError.
Proof.
  induction items as [|item items IH]; simpl; [done|].
  destruct (Book_from item) eqn:E.
  - destruct (construct_all items); [done|]. intros [= <-]. by apply IH.
  - intros [= <-]. by eapply Book_from_raise.
Qed.

Lemma books_of_raise data e : books_of data = Raise e → e = TypeError.
Proof.
  unfold books_of. destruct (iter data) as [items|e'] eqn:E.
  - apply construct_all_raise.
  - intros [= <-]. destruct data; simpl in E; congruence.
Qed.

Lemma load_from_file_eq self :
  load_from_file self =
    (Ok tt,
     match file self with
     | None => set_books [] self
     | Some (Unreadable _) | Some (Inaccessible _) =>
         set_books [] (logged ERROR "Unexpected error loading file." true self)
     | Some NotJSON =>
         set_books [] (logged ERROR "JSON corrupt. Starting empty catalog." false self)
     | Some (Document data) =>
         match books_of data with
         | Ok bs => set_books bs self
         | Raise _ =>
             set_books [] (logged ERROR "Unexpected error loading file." true self)
         end
     end).
Proof.
  unfold load_from_file, try_except, bind, path_exists, read_json, lift, modify.
  destruct self as [bs0 [[msg| |data|msg]|] x lg]; simpl; try done.
  destruct (books_of data) as [bs|e] eqn:E; [done|].
  by rewrite (books_of_raise _ _ E).
Qed.

(** It never raises. *)
Lemma load_from_file_ok self : (load_from_file self).1 = Ok tt.
Proof. by rewrite load_from_file_eq. Qed.

(** ** Which elements [Book] can be built from *)

Lemma init_ok_iff kwargs :
  (∃ b, Book.init kwargs = Ok b) ↔ record (JDict kwargs).
Proof.
  unfold Book.init, record. split.
  - intros [b Hb]. exists kwargs. split; [done|].
    case_bool_decide as HF; [|done].
    destruct (kwargs !! "title") eqn:E1; [|done].
    destruct (kwargs !! "author") eqn:E2; [|done].
    destruct (kwargs !! "isbn") eqn:E3; [|done].
    repeat split; eauto.
    intros k [v Hv]. exact (HF k v Hv).
  - intros (kw & [= <-] & [t Ht] & [a Ha] & [i Hi] & HF).
    rewrite bool_decide_eq_true_2, Ht, Ha, Hi; [eauto|].
    intros k v Hv. apply HF. eauto.
Qed.

Lemma Book_from_ok_iff item : (∃ b, Book_from item = Ok b) ↔ record item.
Proof.
  destruct item as [| | | | |kw]; simpl;
    try (split; [by intros [? ?] | by intros (? & ? & _)]).
  apply init_ok_iff.
Qed.

Lemma construct_all_not_record items item :
  item ∈ items → ¬ record item → construct_all items = Raise TypeError.
Proof.
  intros Hin Hno. induction Hin as [item items|item item' items Hin IH]; simpl.
  - destruct (Book_from item) as [b|e] eqn:E.
    + exfalso. apply Hno, Book_from_ok_iff. eauto.
    + by rewrite (Book_from_raise _ _ E).
  - destruct (Book_from item') as [b|e] eqn:E.
    + by rewrite IH.
    + by rewrite (Book_from_raise _ _ E).
Qed.

(** The constructor, case by case: a path that cannot be examined makes
    [_ensure_storage] raise; a file that is there is loaded; a file that is
    not there is first written. *)
Lemma init_eq f x :
  __init__ f x =
    match f with
    | Some (Inaccessible msg) => (Raise (OSError msg), mk [] f x [])
    | Some _ => load_from_file (mk [] f x [])
    | None => load_from_file (save_to_file (mk [] None x [])).2
    end.
Proof.
  unfold __init__, _ensure_storage, bind, path_exists, ret.
  destruct f as [[msg| |data|msg]|]; cbn [file]; try done.
  cbn [negb]. by rewrite save_to_file_eq.
Qed.

Lemma init_existing data x :
  __init__ (Some (Document data)) x =
    load_from_file (mk [] (Some (Document data)) x []).
Proof. by rewrite init_eq. Qed.

(** ** C1: round trip through the file *)

(** C1. When the file system accepts the write, [save_to_file] returns
    normally and the file then holds the image of every record.  Reloading
    from that file returns normally and puts into memory the list of books
    that was saved, the same records, field for field, in the same order,
    whatever list was in memory when the reload began; so does a new
    [LibraryInventory] constructed on that file. *)
Theorem save_then_load_roundtrip (self : LibraryInventory.t) :
  fault self = NoFault →
  (save_to_file self).1 = Ok tt ∧
  file (save_to_file self).2 = Some (Document (dumped (books self))) ∧
  (load_from_file (save_to_file self).2).1 = Ok tt ∧
  books (load_from_file (save_to_file self).2).2 = books self ∧
  (∀ others,
     (load_from_file (set_books others (save_to_file self).2)).1 = Ok tt ∧
     books (load_from_file (set_books others (save_to_file self).2)).2 =
       books self) ∧
  (∀ x, __init__ (file (save_to_file self).2) x =
          (Ok tt, mk (books self) (file (save_to_file self).2) x [])).
Proof.
  intros HF. rewrite save_to_file_eq, HF. simpl.
  split; [done|]. split; [done|].
  rewrite !load_from_file_eq. simpl. rewrite books_of_dumped.
  split; [done|]. split; [done|]. split.
  - intros others. rewrite load_from_file_eq. simpl.
    by rewrite books_of_dumped.
  - intros x. rewrite init_existing, load_from_file_eq. simpl.
    by rewrite books_of_dumped.
Qed.

Lemma save_then_load_roundtrip_witness :
  fault shelf = NoFault ∧
  books (load_from_file (save_to_file shelf).2).2 = books shelf ∧
  books (load_from_file (set_books [] (save_to_file shelf).2)).2 = books shelf.
Proof.
  split; [reflexivity|].
  destruct (save_then_load_roundtrip shelf eq_refl) as (_ & _ & _ & H4 & H5 & _).
  split; [exact H4|exact (proj2 (H5 []))].
Defined.

(** ** C3: a second book with the same ISBN *)

Lemma add_book_duplicate self book :
  (∃ b, b ∈ books self ∧ Book.isbn b = Book.isbn book) →
  add_book book self = (Raise (ValueError "ISBN already exists in catalog."), self).
Proof.
  intros (b & Hin & Heq). unfold add_book, bind, gets, raise.
  destruct (existsb _ _) eqn:E; [done|].
  exfalso. apply not_true_iff_false in E. apply E.
  apply existsb_exists. exists b. split; [by apply list_elem_of_In|].
  by apply bool_decide_eq_true.
Qed.

Lemma add_book_fresh self book :
  (∀ b, b ∈ books self → Book.isbn b ≠ Book.isbn book) →
  add_book book self =
    (Ok tt, logged INFO ("Book added: " +:+ Book.title book) false
              (save_to_file (set_books (books self ++ [book]) self)).2).
Proof.
  intros Hno. unfold add_book, bind, gets, modify.
  destruct (existsb _ _) eqn:E.
  - apply existsb_exists in E as (b & Hin & Hb).
    apply bool_decide_eq_true in Hb. apply list_elem_of_In in Hin.
    by destruct (Hno b Hin).
  - rewrite save_to_file_eq. done.
Qed.

(** C3. [add_book] with a book whose ISBN some record of the collection
    already has raises ValueError (the duplicate-key error) and leaves the
    whole state, the collection included, as it was.  In particular, in an
    empty catalog, adding [b1] succeeds and adding [b2] with the same ISBN
    then fails, the catalog holding [b1] alone. *)
Theorem add_book_rejects_duplicate :
  (∀ self book,
     (∃ b, b ∈ books self ∧ Book.isbn b = Book.isbn book) →
     add_book book self =
       (Raise (ValueError "ISBN already exists in catalog."), self)) ∧
  (∀ self b1 b2,
     books self = [] → Book.isbn b1 = Book.isbn b2 →
     (add_book b1 self).1 = Ok tt ∧
     books (add_book b1 self).2 = [b1] ∧
     add_book b2 (add_book b1 self).2 =
       (Raise (ValueError "ISBN already exists in catalog."),
        (add_book b1 self).2)).
Proof.
  split; [apply add_book_duplicate|].
  intros self b1 b2 Hnil Heq.
  assert (Hadd : (add_book b1 self).1 = Ok tt ∧ books (add_book b1 self).2 = [b1]).
  { rewrite add_book_fresh.
    - simpl. by rewrite save_to_file_books; simpl; rewrite Hnil.
    - rewrite Hnil. by intros b ?%elem_of_nil. }
  destruct Hadd as [H1 H2]. repeat split; [done..|].
  apply add_book_duplicate. exists b1. rewrite H2. split; [by left|done].
Qed.

Lemma add_book_rejects_duplicate_witness :
  add_book (Book.new "Dune Messiah" "Herbert" "111") (add_book dune fresh).2 =
    (Raise (ValueError "ISBN already exists in catalog."), (add_book dune fresh).2)
  ∧ books (add_book dune fresh).2 = [dune].
Proof.
  destruct add_book_rejects_duplicate as [_ H].
  destruct (H fresh dune (Book.new "Dune Messiah" "Herbert" "111")) as (_ & H2 & H3);
    [reflexivity..|].
  split; [exact H3|exact H2].
Defined.

(** ** C4: a write that fails *)

(** What the caller gets back from an operation, and what the operation
    leaves in memory, do not depend on how the file system answers. *)
Lemma step_fault_independent o self x :
  (step o self).1 = (step o (set_fault x self)).1 ∧
  books (step o self).2 = books (step o (set_fault x self)).2.
Proof.
  destruct o as [book|isbn user_name now|isbn|]; simpl.
  - unfold add_book, bind, gets, modify, raise. simpl.
    destruct (existsb _ _); simpl; [done|].
    rewrite !save_to_file_eq. simpl.
    by destruct (fault self), x.
  - unfold issue_book, bind, search_by_isbn, gets, raise, call. simpl.
    destruct (list_find _ _) as [[i b]|]; simpl; [|done].
    destruct (Book.issue user_name now b) as [[[]|e] b']; simpl; [|done].
    rewrite !save_to_file_eq. simpl. by destruct (fault self), x.
  - unfold return_book, bind, search_by_isbn, gets, raise, call. simpl.
    destruct (list_find _ _) as [[i b]|]; simpl; [|done].
    destruct (Book.return_book b) as [[[]|e] b']; simpl; [|done].
    rewrite !save_to_file_eq. simpl. by destruct (fault self), x.
  - rewrite !load_from_file_eq. simpl.
    destruct (file self) as [[msg| |data|msg]|]; simpl; try done.
    by destruct (books_of data).
Qed.

(** C4, as the code has it.  When the write fails, [save_to_file] logs one
    ERROR record carrying the failure's text and returns normally; the
    collection in memory is kept.  Every operation then returns to its
    caller exactly what it returns when the write succeeds, and leaves the
    same collection in memory: the failure shows in the log only. *)
Theorem failed_write_is_logged_and_swallowed
    (self : LibraryInventory.t) (msg : string) :
  fault self = OpenFails msg ∨ fault self = WriteFails msg →
  (save_to_file self).1 = Ok tt ∧
  books (save_to_file self).2 = books self ∧
  log (save_to_file self).2 =
    (log self ++ [mk_log ERROR ("Failed to save: " +:+ msg) false])%list ∧
  ∀ o, (step o self).1 = (step o (set_fault NoFault self)).1 ∧
       books (step o self).2 = books (step o (set_fault NoFault self)).2.
Proof.
  intros HF. rewrite save_to_file_eq. simpl.
  repeat split; try apply step_fault_independent;
    destruct HF as [-> | ->]; done.
Qed.

Lemma failed_write_is_logged_and_swallowed_witness :
  log (save_to_file read_only).2 =
    (log read_only ++ [mk_log ERROR "Failed to save: [Errno 13] Permission denied: 'catalog.json'" false])%list ∧
  books (add_book dune read_only).2 = books (add_book dune fresh).2.
Proof.
  destruct (failed_write_is_logged_and_swallowed read_only
              "[Errno 13] Permission denied: 'catalog.json'")
    as (_ & _ & H3 & H4); [left; reflexivity|].
  split; [exact H3|exact (proj2 (H4 (Add dune)))].
Defined.

(** The claim's last part fails: on a file system that refuses the write,
    [add_book] hands its caller the plain success value it returns when the
    write succeeds, although nothing reached the file. *)
Lemma failed_write_goes_unreported :
  fault read_only = OpenFails "[Errno 13] Permission denied: 'catalog.json'" ∧
  (add_book dune read_only).1 = Ok tt ∧
  (add_book dune read_only).1 = (add_book dune fresh).1 ∧
  books (add_book dune read_only).2 = [dune] ∧
  file (add_book dune read_only).2 = None.
Proof. repeat split. Qed.

(** ** C5: content that is not valid structured data *)

(** A top-level value that is no array is reported in the same way, unless
    iterating over it yields nothing. *)
Lemma load_not_an_array self data :
  file self = Some (Document data) →
  match data with
  | JNull | JBool _ | JInt _ => True
  | JStr s => s ≠ ""
  | JDict d => d ≠ ∅
  | JList _ => False
  end →
  load_from_file self =
    (Ok tt, set_books [] (logged ERROR "Unexpected error loading file." true self)).
Proof.
  intros HF Hdata. rewrite load_from_file_eq, HF.
  destruct data as [| | |s|items|d]; try done.
  - destruct s as [|c s]; done.
  - unfold books_of. simpl.
    destruct (map_to_list d) as [|[k v] kvs] eqn:E; [|done].
    by apply map_to_list_empty_iff in E.
Qed.

(** An element of the array needs nothing but the shape of a record to be
    loaded: no two ISBNs are compared and no status is looked at. *)
Lemma construct_all_records items :
  Forall record items → ∃ bs, construct_all items = Ok bs ∧ List.length bs = List.length items.
Proof.
  induction 1 as [|item items Hr _ (bs & IH & Hlen)]; simpl; [by exists []|].
  apply Book_from_ok_iff in Hr as [b ->]. rewrite IH.
  exists (b :: bs). simpl. by rewrite Hlen.
Qed.

Lemma construct_all_ok_records items bs :
  construct_all items = Ok bs →
  Forall record items ∧ List.length bs = List.length items.
Proof.
  revert bs. induction items as [|item items IH]; intros bs; simpl.
  - by intros [= <-].
  - destruct (Book_from item) as [b|e] eqn:E; [|done].
    destruct (construct_all items) as [bs'|e] eqn:E'; [|done].
    intros [= <-]. destruct (IH bs' eq_refl) as [HF Hlen].
    split; [|by simpl; rewrite Hlen].
    constructor; [|done]. apply Book_from_ok_iff. eauto.
Qed.

Lemma construct_all_raise_not_records items e :
  construct_all items = Raise e → ¬ Forall record items.
Proof.
  intros E HF. apply construct_all_records in HF as (bs & Hbs & _). congruence.
Qed.

(** C5, as the code has it.  [load_from_file] never raises.  When the
    content of the backing file is not an array of records (it cannot be
    read or parsed, its top-level value is no array, or an element of the
    array is no record [Book] can be built from), the catalog in memory is
    empty afterwards, and exactly one ERROR record has been logged (for
    text that is no JSON: "JSON corrupt. Starting empty catalog."), except
    in one case: when the content is the empty string or the empty object,
    nothing is logged at all.  An array of records is loaded, one book per
    element. *)
Theorem load_content_cases (self : LibraryInventory.t) (c : content) :
  file self = Some c →
  (load_from_file self).1 = Ok tt ∧
  (array_of_records c →
   ∃ bs items, c = Document (JList items) ∧
     List.length bs = List.length items ∧
     load_from_file self = (Ok tt, set_books bs self)) ∧
  (¬ array_of_records c →
   books (load_from_file self).2 = [] ∧
   (empty_iterable c → load_from_file self = (Ok tt, set_books [] self)) ∧
   (¬ empty_iterable c →
    ∃ r, load_from_file self =
           (Ok tt, mk [] (file self) (fault self) (log self ++ [r])) ∧
         levelname r = ERROR ∧
         (c = NotJSON → message r = "JSON corrupt. Starting empty catalog."))).
Proof.
  intros HF. split; [apply load_from_file_ok|]. split.
  - intros (items & -> & Hrec).
    destruct (construct_all_records items Hrec) as (bs & Hbs & Hlen).
    exists bs, items. split; [done|]. split; [done|].
    rewrite load_from_file_eq, HF. unfold books_of. simpl. by rewrite Hbs.
  - intros Hno.
    assert (Hlog : ∀ msg exc,
      set_books [] (logged ERROR msg exc self) =
      mk [] (file self) (fault self) (log self ++ [mk_log ERROR msg exc]))
      by done.
    destruct c as [msg| |data|msg].
    + rewrite load_from_file_eq, HF, Hlog, ?HF. split; [done|].
      split; [by intros [?|?]|]. intros _. by eexists.
    + rewrite load_from_file_eq, HF, Hlog, ?HF. split; [done|].
      split; [by intros [?|?]|]. intros _. by eexists.
    + destruct data as [| | |s|items|d].
      * rewrite (load_not_an_array _ _ HF I), Hlog, ?HF. split; [done|].
        split; [by intros [?|?]|]. intros _. by eexists.
      * rewrite (load_not_an_array _ _ HF I), Hlog, ?HF. split; [done|].
        split; [by intros [?|?]|]. intros _. by eexists.
      * rewrite (load_not_an_array _ _ HF I), Hlog, ?HF. split; [done|].
        split; [by intros [?|?]|]. intros _. by eexists.
      * destruct s as [|ch s].
        -- rewrite load_from_file_eq, HF. split; [done|]. split; [done|].
           intros Hne. destruct Hne. by left.
        -- assert (Hs : String ch s ≠ "") by done.
           rewrite (load_not_an_array _ (JStr (String ch s)) HF Hs), Hlog, ?HF.
           split; [done|]. split; [by intros [?|?]|]. intros _. by eexists.
      * destruct (construct_all items) as [bs|e] eqn:E.
        -- destruct Hno. exists items. split; [done|].
           by apply construct_all_ok_records in E as [? _].
        -- rewrite load_from_file_eq, HF. unfold books_of. simpl.
           rewrite E, Hlog, ?HF. split; [done|]. split; [by intros [?|?]|].
           intros _. by eexists.
      * destruct (map_to_list d) as [|kv kvs] eqn:E.
        -- apply map_to_list_empty_iff in E as ->.
           rewrite load_from_file_eq, HF. split; [done|]. split; [done|].
           intros Hne. destruct Hne. by right.
        -- assert (Hd : d ≠ ∅).
           { intros ->. by rewrite map_to_list_empty in E. }
           rewrite (load_not_an_array _ (JDict d) HF Hd), Hlog, ?HF.
           split; [done|]. split; [|intros _; by eexists].
           intros [[=]|[= ->]]. done.
    + rewrite load_from_file_eq, HF, Hlog, ?HF. split; [done|].
      split; [by intros [?|?]|]. intros _. by eexists.
Qed.

Lemma torn_not_records : ¬ array_of_records torn.
Proof.
  intros (items & Hitems & HF). injection Hitems as <-.
  apply Forall_cons in HF as [_ HF]. apply Forall_cons in HF as [Hr _].
  destruct Hr as (kw & Hkw & _ & [a Ha] & _). injection Hkw as <-.
  vm_compute in Ha. discriminate.
Defined.

Lemma torn_not_empty : ¬ empty_iterable torn.
Proof. intros [H|H]; discriminate. Defined.

Lemma load_content_cases_witness :
  ∃ r, load_from_file (set_file (Some torn) shelf) =
         (Ok tt, mk [] (Some torn) NoFault (log shelf ++ [r])) ∧
       levelname r = ERROR.
Proof.
  destruct (load_content_cases (set_file (Some torn) shelf) torn eq_refl)
    as (_ & _ & H).
  destruct (H torn_not_records) as (_ & _ & H3).
  destruct (H3 torn_not_empty) as (r & H1 & H2 & _).
  exists r. split; [exact H1|exact H2].
Defined.

(** The claim fails for a file that holds the empty object: it is no array
    of records, the two books in memory are dropped, and no log record
    tells of it. *)
Lemma empty_object_is_dropped_silently :
  ¬ array_of_records (Document (JDict ∅)) ∧
  List.length (books shelf) = 2 ∧
  load_from_file (set_file (Some (Document (JDict ∅))) shelf) =
    (Ok tt, set_books [] (set_file (Some (Document (JDict ∅))) shelf)) ∧
  log (load_from_file (set_file (Some (Document (JDict ∅))) shelf)).2 =
    log shelf.
Proof.
  split; [|by repeat split].
  intros (items & Hitems & _). discriminate.
Qed.

(** The loader is lenient elsewhere: a record needs no [status],
    [issued_to] or [issued_on], a status is not checked, and an empty
    object or an empty string at the top level reads as an empty catalog
    without any log record. *)
Remark load_is_lenient :
  Book_from (JDict (list_to_map [("title", "Dune"); ("author", "Herbert");
                                 ("isbn", "111")])) = Ok dune ∧
  load_from_file (set_file (Some (Document (JDict ∅))) shelf) =
    (Ok tt, set_books [] (set_file (Some (Document (JDict ∅))) shelf)) ∧
  load_from_file (set_file (Some (Document (JStr ""))) shelf) =
    (Ok tt, set_books [] (set_file (Some (Document (JStr ""))) shelf)).
Proof. repeat split. Qed.

(** ** C6 and C8: the two transitions of a book *)

(** C6, as the code has it.  [issue] on an available book returns normally
    and sets the status to issued, [issued_to] to the user name it was
    given (so non-empty exactly when that name is), and [issued_on] to the
    clock's time in ISO format, which is never empty.  [return_book] on an
    issued book returns normally, sets the status to available and clears
    both fields. *)
Theorem issue_and_return_effects :
  (∀ b user_name now,
     Book.status b = "available" →
     Book.issue user_name now b =
       (Ok tt, Book.mk (Book.title b) (Book.author b) (Book.isbn b)
                       "issued" user_name (isoformat now)) ∧
     isoformat now ≠ "" ∧
     (user_name ≠ "" → Book.issued_to (Book.issue user_name now b).2 ≠ "")) ∧
  (∀ b,
     Book.status b = "issued" →
     Book.return_book b =
       (Ok tt, Book.mk (Book.title b) (Book.author b) (Book.isbn b)
                       "available" "" "")).
Proof.
  split.
  - intros b user_name now Hs%is_available_true.
    rewrite issue_available by done.
    repeat split; [apply isoformat_nonempty|done].
  - intros b Hs. apply return_unavailable, is_available_false.
    rewrite Hs. discriminate.
Qed.

Lemma issue_and_return_effects_witness :
  Book.issue "Alice" noon dune =
    (Ok tt, Book.mk "Dune" "Herbert" "111" "issued" "Alice" "2024-03-07T12:00:00") ∧
  Book.return_book (Book.issue "Alice" noon dune).2 = (Ok tt, dune).
Proof.
  destruct issue_and_return_effects as [H1 H2].
  split.
  - exact (proj1 (H1 dune "Alice" noon eq_refl)).
  - exact (H2 (Book.issue "Alice" noon dune).2 eq_refl).
Defined.

(** The claim fails for the empty user name, which the menu passes on when
    the prompt is answered with nothing: the book is issued to "". *)
Lemma issue_to_nobody :
  Book.status dune = "available" ∧
  Book.issue "" noon dune =
    (Ok tt, Book.mk "Dune" "Herbert" "111" "issued" "" "2024-03-07T12:00:00") ∧
  Book.issued_to (Book.issue "" noon dune).2 = "".
Proof. repeat split. Qed.

(** C8. Two calls of [return_book] in a row: the second raises the conflict
    error and leaves the book as the first call left it, whose status is
    then available; when the first call took effect (as it does on an
    issued book) both [issued_to] and [issued_on] are empty. *)
Theorem return_twice (b : Book.t) :
  (Book.return_book (Book.return_book b).2).1 =
    Raise (Exception "Book is already available.") ∧
  (Book.return_book (Book.return_book b).2).2 = (Book.return_book b).2 ∧
  Book.status (Book.return_book b).2 = "available" ∧
  (Book.status b = "issued" → (Book.return_book b).1 = Ok tt) ∧
  ((Book.return_book b).1 = Ok tt →
   Book.issued_to (Book.return_book b).2 = "" ∧
   Book.issued_on (Book.return_book b).2 = "").
Proof.
  destruct (Book.is_available b) eqn:E.
  - rewrite !(return_available b) by done. simpl.
    rewrite !(return_available b) by done. simpl.
    apply is_available_true in E.
    repeat split; [done| |done..]. rewrite E. discriminate.
  - rewrite !(return_unavailable b) by done. done.
Qed.

Lemma return_twice_witness :
  Book.return_book (Book.issue "Alice" noon dune).2 = (Ok tt, dune) ∧
  Book.return_book dune = (Raise (Exception "Book is already available."), dune).
Proof.
  pose proof (return_twice (Book.issue "Alice" noon dune).2) as (H1 & H2 & _).
  split; [reflexivity|].
  exact (eq_trans (surjective_pairing _) (f_equal2 pair H1 H2)).
Defined.

(** ** Lookup by ISBN and the two operations built on it *)

Lemma search_by_isbn_found self isbn i b :
  search_by_isbn isbn self = (Ok (Some (i, b)), self) ↔
  first_match isbn (books self) i b.
Proof.
  unfold search_by_isbn, gets, first_match.
  rewrite <- (list_find_Some (λ b, Book.isbn b = isbn)).
  split; [by intros [= ->]|by intros ->].
Qed.

Lemma search_by_isbn_absent self isbn :
  search_by_isbn isbn self = (Ok None, self) ↔
  ∀ b, b ∈ books self → Book.isbn b ≠ isbn.
Proof.
  unfold search_by_isbn, gets.
  rewrite <- (Forall_forall (λ b, Book.isbn b ≠ isbn)).
  rewrite <- (list_find_None (λ b, Book.isbn b = isbn)).
  split; [by intros [= ->]|by intros ->].
Qed.

Lemma set_books_same self : set_books (books self) self = self.
Proof. by destruct self. Qed.

Lemma issue_keeps_isbn user_name now b :
  Book.isbn (Book.issue user_name now b).2 = Book.isbn b.
Proof.
  destruct (Book.is_available b) eqn:E.
  - by rewrite issue_available.
  - by rewrite issue_unavailable.
Qed.

Lemma return_keeps_isbn b : Book.isbn (Book.return_book b).2 = Book.isbn b.
Proof.
  destruct (Book.is_available b) eqn:E.
  - by rewrite return_available.
  - by rewrite return_unavailable.
Qed.

(** A call through a reference: what is returned or raised is the method's,
    and the object at that position is the one mutated; a method that
    raises leaves the whole state as it was. *)
Lemma call_ok (m : M Book.t unit) self i b :
  books self !! i = Some b → (m b).1 = Ok tt →
  call (i, b) m self = (Ok tt, set_books (<[i := (m b).2]> (books self)) self).
Proof. intros _ H. unfold call. simpl. destruct (m b) as [r b']. simpl in *. by subst. Qed.

Lemma call_raise (m : M Book.t unit) self i b e :
  books self !! i = Some b → (m b).1 = Raise e → (m b).2 = b →
  call (i, b) m self = (Raise e, self).
Proof.
  intros Hi H1 H2. unfold call. simpl. destruct (m b) as [r b']. simpl in *.
  subst. by rewrite list_insert_id, set_books_same.
Qed.

Lemma issue_book_absent self isbn user_name now :
  (∀ b, b ∈ books self → Book.isbn b ≠ isbn) →
  issue_book isbn user_name now self =
    (Raise (FileNotFoundError "Book with that ISBN not found."), self).
Proof.
  intros H%search_by_isbn_absent. unfold issue_book.
  by rewrite (bind_ok _ _ _ _ _ H).
Qed.

Lemma issue_book_conflict self isbn user_name now i b e :
  first_match isbn (books self) i b →
  (Book.issue user_name now b).1 = Raise e →
  issue_book isbn user_name now self = (Raise e, self).
Proof.
  intros Hf He. pose proof Hf as (Hi & _).
  apply search_by_isbn_found in Hf. unfold issue_book.
  rewrite (bind_ok _ _ _ _ _ Hf).
  apply bind_raise, call_raise; [done..|]. by eapply issue_raise_unchanged.
Qed.

Lemma issue_book_success self isbn user_name now i b :
  first_match isbn (books self) i b →
  (Book.issue user_name now b).1 = Ok tt →
  issue_book isbn user_name now self =
    save_to_file
      (set_books (<[i := (Book.issue user_name now b).2]> (books self)) self).
Proof.
  intros Hf He. pose proof Hf as (Hi & _).
  apply search_by_isbn_found in Hf. unfold issue_book.
  rewrite (bind_ok _ _ _ _ _ Hf).
  by rewrite (bind_ok _ _ _ _ _ (call_ok _ _ _ _ Hi He)).
Qed.

Lemma return_book_absent self isbn :
  (∀ b, b ∈ books self → Book.isbn b ≠ isbn) →
  return_book isbn self = (Raise (FileNotFoundError "Book not found."), self).
Proof.
  intros H%search_by_isbn_absent. unfold return_book.
  by rewrite (bind_ok _ _ _ _ _ H).
Qed.

Lemma return_book_conflict self isbn i b e :
  first_match isbn (books self) i b →
  (Book.return_book b).1 = Raise e →
  return_book isbn self = (Raise e, self).
Proof.
  intros Hf He. pose proof Hf as (Hi & _).
  apply search_by_isbn_found in Hf. unfold return_book.
  rewrite (bind_ok _ _ _ _ _ Hf).
  apply bind_raise, call_raise; [done..|]. by eapply return_raise_unchanged.
Qed.

Lemma return_book_success self isbn i b :
  first_match isbn (books self) i b →
  (Book.return_book b).1 = Ok tt →
  return_book isbn self =
    save_to_file (set_books (<[i := (Book.return_book b).2]> (books self)) self).
Proof.
  intros Hf He. pose proof Hf as (Hi & _).
  apply search_by_isbn_found in Hf. unfold return_book.
  rewrite (bind_ok _ _ _ _ _ Hf).
  by rewrite (bind_ok _ _ _ _ _ (call_ok _ _ _ _ Hi He)).
Qed.

(** Either no record has the ISBN, or one is the first to have it. *)
Lemma first_match_or_absent isbn (bs : list Book.t) :
  (∀ b, b ∈ bs → Book.isbn b ≠ isbn) ∨ ∃ i b, first_match isbn bs i b.
Proof.
  destruct (list_find (λ b, Book.isbn b = isbn) bs) as [[i b]|] eqn:E.
  - right. exists i, b. by apply list_find_Some in E.
  - left. apply list_find_None in E. by apply Forall_forall.
Qed.

(** Case analysis on a lookup: [Hno] when no record has the ISBN, the first
    match [bk] at position [k] with [Hfm] otherwise. *)
Ltac lookup_cases isbn bs :=
  destruct (first_match_or_absent isbn bs) as [Hno|(k & bk & Hfm)].

(** ** C7: issue_book *)

(** C7. If no record has the ISBN, [issue_book] raises FileNotFoundError and
    the whole state (every book, the file, the log) is as before.  If some
    record has it, the first such record receives [Book.issue]: when that
    raises its conflict error, [issue_book] raises the same error and the
    whole state is as before, so nothing is written; when it returns,
    [issue_book] is [save_to_file] run on the state in which that one
    record has been replaced by the issued one: it returns normally, the
    collection in memory is the updated one and, the write being accepted,
    the file holds the image of the updated collection and nothing is
    logged. *)
Theorem issue_book_spec
    (self : LibraryInventory.t) (isbn user_name : string) (now : datetime) :
  ((∀ b, b ∈ books self → Book.isbn b ≠ isbn) →
   issue_book isbn user_name now self =
     (Raise (FileNotFoundError "Book with that ISBN not found."), self)) ∧
  (∀ i b,
     first_match isbn (books self) i b →
     (∀ e, (Book.issue user_name now b).1 = Raise e →
           issue_book isbn user_name now self = (Raise e, self)) ∧
     ((Book.issue user_name now b).1 = Ok tt →
      issue_book isbn user_name now self =
        save_to_file
          (set_books (<[i := (Book.issue user_name now b).2]> (books self))
                     self) ∧
      (issue_book isbn user_name now self).1 = Ok tt ∧
      books (issue_book isbn user_name now self).2 =
        <[i := (Book.issue user_name now b).2]> (books self) ∧
      (fault self = NoFault →
       file (issue_book isbn user_name now self).2 =
         Some (Document
                 (dumped (<[i := (Book.issue user_name now b).2]> (books self)))) ∧
       log (issue_book isbn user_name now self).2 = log self))).
Proof.
  split; [apply issue_book_absent|].
  intros i b Hf. split.
  - intros e He. by eapply issue_book_conflict.
  - intros Hok. rewrite (issue_book_success _ _ _ _ _ _ Hf Hok).
    split; [done|]. split; [apply save_to_file_ok|].
    split; [by rewrite save_to_file_books|].
    intros HF. rewrite save_to_file_eq. simpl. by rewrite HF.
Qed.

Lemma first_match_dune : first_match "111" (books shelf) 0 (Book.issue "Alice" noon dune).2.
Proof.
  split; [reflexivity|]. split; [reflexivity|].
  intros j b' _ Hj. exfalso. exact (Nat.nlt_0_r j Hj).
Defined.

Lemma first_match_foundation : first_match "222" (books shelf) 1 foundation.
Proof.
  split; [reflexivity|]. split; [reflexivity|].
  intros [|j] b' Hb Hj.
  - injection Hb as <-. discriminate.
  - exfalso. apply Nat.succ_lt_mono in Hj. exact (Nat.nlt_0_r j Hj).
Defined.

Lemma issue_book_spec_witness :
  issue_book "999" "Bob" noon shelf =
    (Raise (FileNotFoundError "Book with that ISBN not found."), shelf) ∧
  issue_book "111" "Bob" noon shelf =
    (Raise (Exception "Book already issued to Alice."), shelf) ∧
  issue_book "222" "Bob" noon shelf =
    save_to_file
      (set_books (<[1 := (Book.issue "Bob" noon foundation).2]> (books shelf)) shelf).
Proof.
  split; [|split].
  - apply (proj1 (issue_book_spec shelf "999" "Bob" noon)).
    intros b Hb Heq. vm_compute in Hb.
    apply elem_of_cons in Hb as [->|Hb]; [discriminate|].
    apply elem_of_cons in Hb as [->|Hb]; [discriminate|].
    by apply elem_of_nil in Hb.
  - destruct (issue_book_spec shelf "111" "Bob" noon) as [_ H].
    destruct (H _ _ first_match_dune) as [H1 _].
    apply H1. reflexivity.
  - destruct (issue_book_spec shelf "222" "Bob" noon) as [_ H].
    destruct (H _ _ first_match_foundation) as [_ H2].
    apply (proj1 (H2 eq_refl)).
Defined.

(** ** C9: search by title *)

Lemma append_nil s : "" +:+ s = s.
Proof. reflexivity. Qed.

Lemma append_cons c s1 s2 : String c s1 +:+ s2 = String c (s1 +:+ s2).
Proof. reflexivity. Qed.

Lemma prefix_spec q s : String.prefix q s = true ↔ ∃ post, s = q +:+ post.
Proof.
  revert s. induction q as [|a q IH]; intros s; simpl.
  - destruct s; split; eauto.
  - destruct s as [|c s]; simpl.
    + split; [done|]. intros [post H]. by rewrite append_cons in H.
    + destruct (ascii_dec a c) as [->|Hne].
      * rewrite IH. split; intros [post H]; exists post.
        -- rewrite append_cons. congruence.
        -- rewrite append_cons in H. congruence.
      * split; [done|]. intros [post H]. rewrite append_cons in H. congruence.
Qed.

Lemma contains_spec q s : contains q s = true ↔ Substring q s.
Proof.
  unfold Substring. induction s as [|c s IH].
  - change (contains q "") with (String.prefix q "" || false).
    rewrite orb_false_r, prefix_spec. split.
    + intros [post H]. by exists "", post.
    + intros ([|??] & post & H).
      * by exists post.
      * by rewrite append_cons in H.
  - change (contains q (String c s))
      with (String.prefix q (String c s) || contains q s).
    rewrite orb_true_iff, prefix_spec, IH. split.
    + intros [[post H]|(pre & post & H)].
      * by exists "", post.
      * exists (String c pre), post. by rewrite append_cons, H.
    + intros ([|c' pre] & post & H).
      * left. by exists post.
      * right. exists pre, post. rewrite append_cons in H. congruence.
Qed.

Lemma filter_selected (f : Book.t → bool) (P : Book.t → Prop) bs :
  (∀ b, f b = true ↔ P b) → selected P bs (List.filter f bs).
Proof.
  intros Hf. induction bs as [|b bs IH]; simpl; [constructor|].
  destruct (f b) eqn:E.
  - apply selected_keep; [by apply Hf|done].
  - apply selected_skip; [|done]. rewrite <- Hf. congruence.
Qed.

Lemma selected_elem_of P bs found b :
  selected P bs found → b ∈ found ↔ b ∈ bs ∧ P b.
Proof.
  induction 1 as [|b' bs found HP _ IH|b' bs found HP _ IH].
  - split; [by intros ?%elem_of_nil|by intros [?%elem_of_nil _]].
  - rewrite !elem_of_cons, IH.
    split; [intros [->|[? ?]]; auto|intros [[->|?] ?]; auto].
  - rewrite elem_of_cons, IH.
    split; [intros [? ?]; auto|intros [[->|?] ?]; [done|auto]].
Qed.

Lemma selected_sublist P bs found : selected P bs found → found `sublist_of` bs.
Proof. induction 1; by constructor. Qed.

Lemma selected_none P bs found :
  selected P bs found → (∀ b, b ∈ bs → ¬ P b) → found = [].
Proof.
  intros Hsel Hno. destruct found as [|b found]; [done|].
  assert (b ∈ b :: found) as Hin by left.
  apply (selected_elem_of _ _ _ _ Hsel) in Hin as [Hin HP].
  by destruct (Hno b Hin).
Qed.

(** C9. Whatever [str.lower] computes, [search_by_title] returns normally,
    with the state (the collection and every book in it) as it was.  What
    it returns are exactly the records whose lowered title contains the
    lowered query, in the order of the collection: a record is returned if
    and only if it is in the collection and matches, and no record is
    reordered.  If no title matches, that is the empty list, not an
    error. *)
Theorem search_by_title_spec
    (lower : string → string) (text : string) (self : LibraryInventory.t) :
  ∃ found,
    search_by_title lower text self = (Ok found, self) ∧
    selected (λ b, Substring (lower text) (lower (Book.title b)))
             (books self) found ∧
    found `sublist_of` books self ∧
    (∀ b, b ∈ found ↔
          b ∈ books self ∧ Substring (lower text) (lower (Book.title b))) ∧
    ((∀ b, b ∈ books self →
           ¬ Substring (lower text) (lower (Book.title b))) →
     found = []).
Proof.
  eexists. split; [reflexivity|].
  assert (Hsel : selected (λ b, Substring (lower text) (lower (Book.title b)))
                   (books self)
                   (List.filter (λ b, contains (lower text) (lower (Book.title b)))
                                (books self))).
  { apply filter_selected. intros b. apply contains_spec. }
  split; [done|]. split; [by eapply selected_sublist|].
  split; [intros b; by apply (selected_elem_of _ _ _ _ Hsel)|].
  by apply selected_none.
Qed.

Lemma search_by_title_spec_witness :
  ∃ found,
    search_by_title ascii_lower "DUNE" shelf = (Ok found, shelf) ∧
    (∀ b, b ∈ found ↔
          b ∈ books shelf ∧ Substring "dune" (ascii_lower (Book.title b))).
Proof.
  destruct (search_by_title_spec ascii_lower "DUNE" shelf) as (found & H1 & _ & _ & H2 & _).
  exists found. split; [exact H1|exact H2].
Defined.

Example search_by_title_examples :
  (search_by_title ascii_lower "DUNE" shelf).1 =
    Ok [Book.mk "Dune" "Herbert" "111" "issued" "Alice" "2024-03-07T12:00:00"] ∧
  (search_by_title ascii_lower "n" shelf).1 = Ok (books shelf) ∧
  (search_by_title ascii_lower "" shelf).1 = Ok (books shelf) ∧
  (search_by_title ascii_lower "Solaris" shelf).1 = Ok [].
Proof. repeat split. Qed.

(** ** C10: records that share an ISBN *)

Lemma load_dumped self bs :
  load_from_file (set_file (Some (Document (dumped bs))) self) =
    (Ok tt, set_books bs (set_file (Some (Document (dumped bs))) self)).
Proof. rewrite load_from_file_eq. simpl. by rewrite books_of_dumped. Qed.

(** The positions [issue_book] and [return_book] leave alone, and what
    they keep at every position. *)
Lemma call_lookup_other (m : M Book.t unit) self k bk (j : nat) :
  k ≠ j →
  books (call (k, bk) m self).2 !! j = books self !! j.
Proof.
  intros Hne. unfold call. simpl. destruct (m bk) as [r b']. simpl.
  by rewrite list_lookup_insert_ne.
Qed.

Lemma issue_book_books self isbn user_name now :
  books (issue_book isbn user_name now self).2 = books self ∨
  ∃ k bk, first_match isbn (books self) k bk ∧
    books (issue_book isbn user_name now self).2 =
      <[k := (Book.issue user_name now bk).2]> (books self).
Proof.
  lookup_cases isbn (books self).
  - left. by rewrite issue_book_absent.
  - destruct (Book.issue user_name now bk).1 as [[]|e] eqn:E.
    + right. exists k, bk. split; [done|].
      rewrite (issue_book_success _ _ _ _ _ _ Hfm E).
      by rewrite save_to_file_books.
    + left. by rewrite (issue_book_conflict _ _ _ _ _ _ _ Hfm E).
Qed.

Lemma return_book_books self isbn :
  books (return_book isbn self).2 = books self ∨
  ∃ k bk, first_match isbn (books self) k bk ∧
    books (return_book isbn self).2 =
      <[k := (Book.return_book bk).2]> (books self).
Proof.
  lookup_cases isbn (books self).
  - left. by rewrite return_book_absent.
  - destruct (Book.return_book bk).1 as [[]|e] eqn:E.
    + right. exists k, bk. split; [done|].
      rewrite (return_book_success _ _ _ _ Hfm E).
      by rewrite save_to_file_books.
    + left. by rewrite (return_book_conflict _ _ _ _ _ Hfm E).
Qed.

Lemma add_book_books self book :
  books (add_book book self).2 = books self ∨
  books (add_book book self).2 = (books self ++ [book])%list.
Proof.
  lookup_cases (Book.isbn book) (books self).
  - right. rewrite add_book_fresh by done. simpl.
    by rewrite save_to_file_books.
  - left. destruct Hfm as (Hk & Hisbn & _).
    rewrite add_book_duplicate; [done|].
    exists bk. split; [|done]. by eapply list_elem_of_lookup_2.
Qed.

(** A first match is never a later duplicate. *)
Lemma first_match_not_later isbn bs k bk j b :
  first_match isbn bs k bk → later_duplicate bs j b → k ≠ j.
Proof.
  intros (Hk & Hisbn & Hmin) (Hj & i & b0 & Hlt & Hi & Heq) ->.
  rewrite Hk in Hj. injection Hj as ->.
  apply (Hmin i b0 Hi Hlt). congruence.
Qed.

Lemma insert_keeps_later_duplicate bs k bk b' j b :
  bs !! k = Some bk → Book.isbn b' = Book.isbn bk → k ≠ j →
  later_duplicate bs j b → later_duplicate (<[k := b']> bs) j b.
Proof.
  intros Hk Hisbn Hne (Hj & i & b0 & Hlt & Hi & Heq). split.
  - by rewrite list_lookup_insert_ne.
  - destruct (decide (k = i)) as [->|Hki].
    + exists i, b'. split; [done|]. split.
      * apply list_lookup_insert_eq. by eapply lookup_lt_Some.
      * rewrite Hk in Hi. injection Hi as ->. congruence.
    + exists i, b0. by rewrite list_lookup_insert_ne.
Qed.

Lemma step_keeps_later_duplicate o self j b :
  o ≠ Load →
  later_duplicate (books self) j b →
  later_duplicate (books (step o self).2) j b.
Proof.
  intros Hload Hdup. destruct o as [book|isbn user_name now|isbn|]; simpl; [| | |done].
  - destruct (add_book_books self book) as [->| ->]; [done|].
    destruct Hdup as (Hj & i & b0 & Hlt & Hi & Heq). split.
    + by apply lookup_app_l_Some.
    + exists i, b0. split; [done|]. split; [by apply lookup_app_l_Some|done].
  - destruct (issue_book_books self isbn user_name now)
      as [->|(k & bk & Hf & ->)]; [done|].
    apply insert_keeps_later_duplicate with bk; [apply Hf|apply issue_keeps_isbn| |done].
    by eapply first_match_not_later.
  - destruct (return_book_books self isbn) as [->|(k & bk & Hf & ->)]; [done|].
    apply insert_keeps_later_duplicate with bk; [apply Hf|apply return_keeps_isbn| |done].
    by eapply first_match_not_later.
Qed.

Lemma session_keeps_later_duplicate ops self j b :
  Forall (λ o, o ≠ Load) ops →
  later_duplicate (books self) j b →
  later_duplicate (books (session ops self)) j b.
Proof.
  intros Hops. revert self.
  induction Hops as [|o ops Ho _ IH]; intros self Hdup; simpl; [done|].
  by apply IH, step_keeps_later_duplicate.
Qed.

(** C10. A file that holds any list of records, say one where the record at
    position [j] repeats the ISBN of an earlier one, is loaded as it is,
    whatever the ISBNs and the statuses.  In the loaded collection,
    [search_by_isbn] for that ISBN returns the first record that has it,
    which lies before [j]; and no [issue_book] or [return_book], with any
    arguments, nor any sequence of operations that does not reload the
    file, changes the record at [j]. *)
Theorem later_duplicate_is_unreachable
    (self0 : LibraryInventory.t) (bs : list Book.t)
    (i j : nat) (b0 b : Book.t) :
  bs !! i = Some b0 → bs !! j = Some b → i < j →
  Book.isbn b0 = Book.isbn b →
  let self :=
    (load_from_file (set_file (Some (Document (dumped bs))) self0)).2 in
  books self = bs ∧
  (∃ k b', search_by_isbn (Book.isbn b) self = (Ok (Some (k, b')), self) ∧
           first_match (Book.isbn b) bs k b' ∧ k < j) ∧
  (∀ isbn user_name now,
     books (issue_book isbn user_name now self).2 !! j = Some b) ∧
  (∀ isbn, books (return_book isbn self).2 !! j = Some b) ∧
  (∀ ops, Forall (λ o, o ≠ Load) ops →
          books (session ops self) !! j = Some b).
Proof.
  intros Hi Hj Hlt Heq. simpl. rewrite load_dumped. simpl.
  set (self := set_books bs (set_file (Some (Document (dumped bs))) self0)).
  assert (Hdup : later_duplicate (books self) j b).
  { split; [done|]. by exists i, b0. }
  split; [done|]. split; [|split; [|split]].
  - lookup_cases (Book.isbn b) bs.
    + destruct (Hno b0); [by eapply list_elem_of_lookup_2|done].
    + exists k, bk. split; [by apply search_by_isbn_found|]. split; [done|].
      destruct Hfm as (_ & _ & Hmin).
      destruct (decide (k < j)) as [|Hge]; [done|].
      destruct (Hmin i b0 Hi); [lia|done].
  - intros isbn user_name now.
    apply (step_keeps_later_duplicate (Issue isbn user_name now) self j b); done.
  - intros isbn.
    apply (step_keeps_later_duplicate (Return isbn) self j b); done.
  - intros ops Hops.
    by apply (session_keeps_later_duplicate ops self j b).
Qed.

Lemma later_duplicate_is_unreachable_witness :
  books (load_from_file (set_file (Some (Document (dumped twins))) fresh)).2 = twins ∧
  books (issue_book "111" "Bob" noon
           (load_from_file (set_file (Some (Document (dumped twins))) fresh)).2).2 !! 1 =
    Some (Book.mk "Dune (large print)" "Herbert" "111" "lost" "" "").
Proof.
  destruct (later_duplicate_is_unreachable fresh twins 0 1 dune
              (Book.mk "Dune (large print)" "Herbert" "111" "lost" "" "")
              eq_refl eq_refl (Nat.lt_0_succ 0) eq_refl)
    as (H1 & _ & H3 & _).
  split; [exact H1|exact (H3 "111" "Bob" noon)].
Defined.

(** ** C2: the status invariant *)

Lemma new_consistent title author isbn : consistent (Book.new title author isbn).
Proof. unfold consistent. simpl. split; split; intros; done. Qed.

Lemma issue_consistent user_name now b :
  user_name ≠ "" → consistent b → consistent (Book.issue user_name now b).2.
Proof.
  intros Hu Hb. destruct (Book.is_available b) eqn:E.
  - rewrite issue_available by done. unfold consistent. simpl.
    split; split; intros; done.
  - by rewrite issue_unavailable.
Qed.

Lemma return_consistent b : consistent b → consistent (Book.return_book b).2.
Proof.
  intros Hb. destruct (Book.is_available b) eqn:E.
  - by rewrite return_available.
  - rewrite return_unavailable by done. unfold consistent. simpl.
    split; split; intros; done.
Qed.

Lemma save_to_file_stored self :
  Forall consistent (books self) → stored_consistent (file self) →
  stored_consistent (file (save_to_file self).2).
Proof.
  intros Hb Hf. rewrite save_to_file_eq. simpl.
  destruct self as [bs f [|msg|msg] lg]; simpl in *; [| done |].
  - intros data bs' [= <-]. rewrite books_of_dumped. by intros [= <-].
  - by intros data bs' [=].
Qed.

Lemma step_preserves_invariant o self :
  permitted o →
  Forall consistent (books self) → stored_consistent (file self) →
  Forall consistent (books (step o self).2) ∧
  stored_consistent (file (step o self).2).
Proof.
  intros Hperm Hb Hf.
  destruct o as [book|isbn user_name now|isbn|]; simpl in *.
  - lookup_cases (Book.isbn book) (books self).
    + rewrite add_book_fresh by done. simpl.
      assert (Forall consistent (books self ++ [book])) as Hb'.
      { apply Forall_app. split; [done|]. by constructor. }
      split.
      * by rewrite save_to_file_books.
      * by apply save_to_file_stored.
    + destruct Hfm as (Hk & Hisbn & _).
      rewrite add_book_duplicate; [done|].
      exists bk. split; [|done]. by eapply list_elem_of_lookup_2.
  - lookup_cases isbn (books self).
    + by rewrite issue_book_absent.
    + destruct (Book.issue user_name now bk).1 as [[]|e] eqn:E.
      * rewrite (issue_book_success _ _ _ _ _ _ Hfm E).
        assert (Forall consistent (<[k := (Book.issue user_name now bk).2]> (books self)))
          as Hb'.
        { apply Forall_insert; [done|]. apply issue_consistent; [done|].
          destruct Hfm as [Hk _]. by eapply Forall_lookup_1. }
        split.
        -- by rewrite save_to_file_books.
        -- by apply save_to_file_stored.
      * by rewrite (issue_book_conflict _ _ _ _ _ _ _ Hfm E).
  - lookup_cases isbn (books self).
    + by rewrite return_book_absent.
    + destruct (Book.return_book bk).1 as [[]|e] eqn:E.
      * rewrite (return_book_success _ _ _ _ Hfm E).
        assert (Forall consistent (<[k := (Book.return_book bk).2]> (books self)))
          as Hb'.
        { apply Forall_insert; [done|]. apply return_consistent.
          destruct Hfm as [Hk _]. by eapply Forall_lookup_1. }
        split.
        -- by rewrite save_to_file_books.
        -- by apply save_to_file_stored.
      * by rewrite (return_book_conflict _ _ _ _ _ Hfm E).
  - rewrite load_from_file_eq. simpl.
    destruct self as [bs [[msg| |data|msg]|] x lg]; simpl in *; try done.
    destruct (books_of data) as [bs'|e] eqn:E; simpl; [|done].
    split; [|done]. by eapply Hf.
Qed.

Lemma session_preserves_invariant ops self :
  Forall permitted ops →
  Forall consistent (books self) → stored_consistent (file self) →
  Forall consistent (books (session ops self)) ∧
  stored_consistent (file (session ops self)).
Proof.
  intros Hops. revert self.
  induction Hops as [|o ops Ho _ IH]; intros self Hb Hf; simpl; [done|].
  destruct (step_preserves_invariant o self Ho Hb Hf) as [Hb' Hf'].
  by apply IH.
Qed.

Lemma init_invariant f x :
  stored_consistent f →
  Forall consistent (books (__init__ f x).2) ∧
  stored_consistent (file (__init__ f x).2).
Proof.
  intros Hf. rewrite init_eq.
  destruct f as [[msg| |data|msg]|]; [| | |done|];
    try (apply (step_preserves_invariant Load (mk [] (Some _) x [])); simpl; done).
  apply (step_preserves_invariant Load); [done| |].
  - by rewrite save_to_file_books.
  - apply save_to_file_stored; [done|]. by intros data bs [=].
Qed.

(** C2, as the code has it.  Call a book consistent when each of
    [issued_to] and [issued_on] is non-empty exactly when its status is
    issued.  If every book of the catalog and every record of its file is
    consistent, then they still are after any sequence of add, issue,
    return and load operations in which every added book is consistent (a
    book built with the default status is) and every user name is
    non-empty. *)
Theorem invariant_preserved (ops : list op) (self : LibraryInventory.t) :
  Forall consistent (books self) →
  stored_consistent (file self) →
  Forall permitted ops →
  Forall consistent (books (session ops self)) ∧
  stored_consistent (file (session ops self)).
Proof. intros Hb Hf Hops. by apply session_preserves_invariant. Qed.

Lemma fresh_invariant :
  Forall consistent (books fresh) ∧ stored_consistent (file fresh).
Proof. apply init_invariant. by intros data bs [=]. Qed.

Lemma invariant_preserved_witness :
  Forall consistent
    (books (session [Add dune; Add foundation; Issue "111" "Alice" noon;
                     Return "111"; Issue "222" "Bob" noon; Load] fresh)).
Proof.
  refine (proj1 (invariant_preserved
    [Add dune; Add foundation; Issue "111" "Alice" noon;
     Return "111"; Issue "222" "Bob" noon; Load] fresh
    (proj1 fresh_invariant) (proj2 fresh_invariant) _)).
  repeat constructor; try apply new_consistent; discriminate.
Defined.

(** The claim fails for [issue_book] with the empty user name: the book is
    then issued, with a date, to nobody. *)
Lemma issue_book_to_nobody :
  Forall consistent (books (add_book dune fresh).2) ∧
  (issue_book "111" "" noon (add_book dune fresh).2).1 = Ok tt ∧
  books (issue_book "111" "" noon (add_book dune fresh).2).2 =
    [Book.mk "Dune" "Herbert" "111" "issued" "" "2024-03-07T12:00:00"] ∧
  ¬ consistent (Book.mk "Dune" "Herbert" "111" "issued" "" "2024-03-07T12:00:00").
Proof.
  split; [|split; [reflexivity|split; [reflexivity|]]].
  - repeat constructor; apply new_consistent.
  - intros [[_ H] _]. simpl in H. by apply H.
Qed.

(** ** The scenario of the specification *)

Example scenario :
  let s1 := session [Add dune; Add foundation; Issue "111" "Alice" noon] fresh in
  let s2 := session [Return "111"] s1 in
  (∃ i b, (search_by_isbn "111" s1).1 = Ok (Some (i, b)) ∧
          Book.status b = "issued" ∧ Book.issued_to b = "Alice") ∧
  (∃ i b, (search_by_isbn "111" s2).1 = Ok (Some (i, b)) ∧
          Book.status b = "available" ∧ Book.issued_to b = "").
Proof. split; eexists _, _; repeat split. Qed.

(** * Further properties of the inventory *)

(** ** return_book and search_by_isbn *)

(** X1. [return_book] (LibraryInventory): if no record has the ISBN it
    raises FileNotFoundError("Book not found.") and the whole state is as
    before.  Otherwise the first record with the ISBN receives
    [Book.return_book]: a conflict error is raised again with the whole
    state as before, and on success the operation is [save_to_file] run on
    the state in which that one record has been replaced by the returned
    one. *)
Theorem return_book_spec (self : LibraryInventory.t) (isbn : string) :
  ((∀ b, b ∈ books self → Book.isbn b ≠ isbn) →
   return_book isbn self =
     (Raise (FileNotFoundError "Book not found."), self)) ∧
  (∀ i b,
     first_match isbn (books self) i b →
     (∀ e, (Book.return_book b).1 = Raise e →
           return_book isbn self = (Raise e, self)) ∧
     ((Book.return_book b).1 = Ok tt →
      return_book isbn self =
        save_to_file
          (set_books (<[i := (Book.return_book b).2]> (books self)) self))).
Proof.
  split; [apply return_book_absent|].
  intros i b Hf. split.
  - intros e He. by eapply return_book_conflict.
  - by apply return_book_success.
Qed.

Lemma return_book_spec_witness :
  return_book "999" shelf = (Raise (FileNotFoundError "Book not found."), shelf) ∧
  return_book "222" shelf =
    (Raise (Exception "Book is already available."), shelf) ∧
  return_book "111" shelf =
    save_to_file (set_books (<[0 := dune]> (books shelf)) shelf).
Proof.
  split; [|split].
  - apply (proj1 (return_book_spec shelf "999")).
    intros b Hb Heq. vm_compute in Hb.
    apply elem_of_cons in Hb as [->|Hb]; [discriminate|].
    apply elem_of_cons in Hb as [->|Hb]; [discriminate|].
    by apply elem_of_nil in Hb.
  - destruct (return_book_spec shelf "222") as [_ H].
    destruct (H _ _ first_match_foundation) as [H1 _].
    apply H1. reflexivity.
  - destruct (return_book_spec shelf "111") as [_ H].
    destruct (H _ _ first_match_dune) as [_ H2].
    apply H2. reflexivity.
Defined.

(** X2. [search_by_isbn] changes nothing and never raises; it returns None
    exactly when no record has the ISBN, and otherwise the first record, in
    the order of the collection, that has it. *)
Theorem search_by_isbn_spec (self : LibraryInventory.t) (isbn : string) :
  (search_by_isbn isbn self).2 = self ∧
  ((search_by_isbn isbn self).1 = Ok None ↔
   ∀ b, b ∈ books self → Book.isbn b ≠ isbn) ∧
  (∀ i b, (search_by_isbn isbn self).1 = Ok (Some (i, b)) ↔
          first_match isbn (books self) i b).
Proof.
  split; [done|]. split.
  - rewrite <- search_by_isbn_absent. unfold search_by_isbn, gets. simpl.
    split; [by intros ->|by intros [= ->]].
  - intros i b. rewrite <- search_by_isbn_found.
    unfold search_by_isbn, gets. simpl.
    split; [by intros ->|by intros [= ->]].
Qed.

(** ** add_book *)

Lemma first_match_app_l isbn (bs bs' : list Book.t) i b :
  first_match isbn bs i b → first_match isbn (bs ++ bs') i b.
Proof.
  intros (Hi & Hisbn & Hmin). split; [by apply lookup_app_l_Some|].
  split; [done|]. intros j b' Hj Hlt. apply (Hmin j b'); [|done].
  rewrite lookup_app_l in Hj; [done|].
  apply lookup_lt_Some in Hi. lia.
Qed.

Lemma first_match_snoc isbn (bs : list Book.t) b :
  (∀ b', b' ∈ bs → Book.isbn b' ≠ isbn) → Book.isbn b = isbn →
  first_match isbn (bs ++ [b]) (List.length bs) b.
Proof.
  intros Hno Hisbn. split; [|split; [done|]].
  - rewrite lookup_app_r by done. by rewrite Nat.sub_diag.
  - intros j b' Hj Hlt. rewrite lookup_app_l in Hj by done.
    apply Hno. by eapply list_elem_of_lookup_2.
Qed.

Lemma search_by_isbn_result self isbn :
  (search_by_isbn isbn self).1 =
    Ok (list_find (λ b, Book.isbn b = isbn) (books self)).
Proof. done. Qed.

(** X3. When no record has the new book's ISBN, [add_book] returns
    normally and puts the book at the end of the collection, where
    [search_by_isbn] for its ISBN then finds it; a search for any other
    ISBN answers as before the addition. *)
Theorem add_book_then_search (self : LibraryInventory.t) (book : Book.t) :
  (∀ b, b ∈ books self → Book.isbn b ≠ Book.isbn book) →
  (add_book book self).1 = Ok tt ∧
  books (add_book book self).2 = (books self ++ [book])%list ∧
  (search_by_isbn (Book.isbn book) (add_book book self).2).1 =
    Ok (Some (List.length (books self), book)) ∧
  (∀ isbn, isbn ≠ Book.isbn book →
     (search_by_isbn isbn (add_book book self).2).1 =
     (search_by_isbn isbn self).1).
Proof.
  intros Hno.
  assert (Hbooks : books (add_book book self).2 = (books self ++ [book])%list).
  { rewrite add_book_fresh by done. simpl. by rewrite save_to_file_books. }
  split; [by rewrite add_book_fresh|]. split; [done|]. split.
  - assert (Hf : first_match (Book.isbn book) (books (add_book book self).2)
                   (List.length (books self)) book).
    { rewrite Hbooks. by apply first_match_snoc. }
    apply search_by_isbn_found in Hf. by rewrite Hf.
  - intros isbn Hne. rewrite !search_by_isbn_result, Hbooks.
    destruct (list_find _ (books self)) as [[i b]|] eqn:E.
    + by rewrite (list_find_app_l _ _ _ _ _ E).
    + rewrite list_find_app_r by done. simpl.
      by rewrite decide_False by done.
Qed.

Lemma add_book_then_search_witness :
  (search_by_isbn "222" (add_book foundation (add_book dune fresh).2).2).1 =
    Ok (Some (1, foundation)) ∧
  (search_by_isbn "111" (add_book foundation (add_book dune fresh).2).2).1 =
    (search_by_isbn "111" (add_book dune fresh).2).1.
Proof.
  assert (Hno : ∀ b, b ∈ books (add_book dune fresh).2 →
                     Book.isbn b ≠ Book.isbn foundation).
  { intros b Hb. vm_compute in Hb.
    apply elem_of_cons in Hb as [->|Hb]; [discriminate|].
    by apply elem_of_nil in Hb. }
  destruct (add_book_then_search (add_book dune fresh).2 foundation Hno)
    as (_ & _ & H3 & H4).
  split; [exact H3|]. apply H4. discriminate.
Defined.

(** ** What the operations keep *)

Lemma step_fault o self : fault (step o self).2 = fault self.
Proof.
  destruct o as [book|isbn user_name now|isbn|]; simpl.
  - lookup_cases (Book.isbn book) (books self).
    + rewrite add_book_fresh by done. simpl. by rewrite save_to_file_fault.
    + destruct Hfm as (Hk & Hisbn & _). rewrite add_book_duplicate; [done|].
      exists bk. split; [|done]. by eapply list_elem_of_lookup_2.
  - lookup_cases isbn (books self).
    + by rewrite issue_book_absent.
    + destruct (Book.issue user_name now bk).1 as [[]|e] eqn:E.
      * rewrite (issue_book_success _ _ _ _ _ _ Hfm E).
        by rewrite save_to_file_fault.
      * by rewrite (issue_book_conflict _ _ _ _ _ _ _ Hfm E).
  - lookup_cases isbn (books self).
    + by rewrite return_book_absent.
    + destruct (Book.return_book bk).1 as [[]|e] eqn:E.
      * rewrite (return_book_success _ _ _ _ Hfm E).
        by rewrite save_to_file_fault.
      * by rewrite (return_book_conflict _ _ _ _ _ Hfm E).
  - rewrite load_from_file_eq. simpl.
    destruct self as [bs [[msg| |data|msg]|] x lg]; simpl; try done.
    by destruct (books_of data).
Qed.

(** The books after one operation that is no reload: the same list, the
    list with one more book whose ISBN is new, or the list with one record
    replaced by a record of the same title, author and ISBN. *)
Lemma step_books o self :
  o ≠ Load →
  books (step o self).2 = books self ∨
  (∃ book, o = Add book ∧
     (∀ b, b ∈ books self → Book.isbn b ≠ Book.isbn book) ∧
     books (step o self).2 = (books self ++ [book])%list) ∨
  (∃ k bk b', books self !! k = Some bk ∧ identity b' = identity bk ∧
     books (step o self).2 = <[k := b']> (books self)).
Proof.
  intros Hload. destruct o as [book|isbn user_name now|isbn|]; simpl; [| | |done].
  - lookup_cases (Book.isbn book) (books self).
    + right; left. exists book. split; [done|]. split; [done|].
      rewrite add_book_fresh by done. simpl. by rewrite save_to_file_books.
    + left. destruct Hfm as (Hk & Hisbn & _). rewrite add_book_duplicate; [done|].
      exists bk. split; [|done]. by eapply list_elem_of_lookup_2.
  - destruct (issue_book_books self isbn user_name now)
      as [->|(k & bk & Hf & ->)]; [by left|].
    right; right. exists k, bk, (Book.issue user_name now bk).2.
    split; [apply Hf|]. split; [|done].
    destruct (Book.is_available bk) eqn:E.
    + by rewrite issue_available.
    + by rewrite issue_unavailable.
  - destruct (return_book_books self isbn) as [->|(k & bk & Hf & ->)]; [by left|].
    right; right. exists k, bk, (Book.return_book bk).2.
    split; [apply Hf|]. split; [|done].
    destruct (Book.is_available bk) eqn:E.
    + by rewrite return_available.
    + by rewrite return_unavailable.
Qed.

Lemma insert_same_image {B} (f : Book.t → B) (bs : list Book.t) k bk b' :
  bs !! k = Some bk → f b' = f bk → f <$> <[k := b']> bs = f <$> bs.
Proof.
  intros Hk Hf. rewrite list_fmap_insert, Hf.
  apply list_insert_id. by rewrite list_lookup_fmap, Hk.
Qed.

Lemma identity_isbn b b' : identity b' = identity b → Book.isbn b' = Book.isbn b.
Proof. unfold identity. by intros [= _ _ ->]. Qed.

Lemma step_identities o self :
  o ≠ Load →
  (identity <$> books self) `prefix_of` (identity <$> books (step o self).2).
Proof.
  intros Hload.
  destruct (step_books o self Hload)
    as [->|[(book & _ & _ & ->)|(k & bk & b' & Hk & Hid & ->)]].
  - done.
  - rewrite fmap_app. by apply prefix_app_r.
  - by rewrite (insert_same_image identity _ _ _ _ Hk Hid).
Qed.

Lemma step_unique o self :
  o ≠ Load →
  unique_isbns (books self) → unique_isbns (books (step o self).2).
Proof.
  intros Hload Hu. unfold unique_isbns in *.
  destruct (step_books o self Hload)
    as [->|[(book & _ & Hno & ->)|(k & bk & b' & Hk & Hid & ->)]].
  - done.
  - rewrite fmap_app. apply NoDup_app. split; [done|]. split.
    + intros x (b & -> & Hb)%list_elem_of_fmap Hx.
      apply list_elem_of_singleton in Hx. by apply (Hno b).
    + apply NoDup_singleton.
  - rewrite (insert_same_image Book.isbn _ _ _ _ Hk); [done|].
    by apply identity_isbn.
Qed.

(** After an operation the file is as before, or truncated by a failed
    write, or the image of the collection in memory. *)
Lemma save_to_file_file self :
  file (save_to_file self).2 = file self ∨
  file (save_to_file self).2 = Some NotJSON ∨
  file (save_to_file self).2 = Some (Document (dumped (books (save_to_file self).2))).
Proof.
  rewrite save_to_file_eq. simpl. destruct self as [bs f [|msg|msg] lg]; simpl; auto.
Qed.

Lemma step_file o self :
  file (step o self).2 = file self ∨
  file (step o self).2 = Some NotJSON ∨
  file (step o self).2 = Some (Document (dumped (books (step o self).2))).
Proof.
  destruct o as [book|isbn user_name now|isbn|]; simpl.
  - lookup_cases (Book.isbn book) (books self).
    + rewrite add_book_fresh by done. simpl.
      apply (save_to_file_file (set_books (books self ++ [book]) self)).
    + left. destruct Hfm as (Hk & Hisbn & _). rewrite add_book_duplicate; [done|].
      exists bk. split; [|done]. by eapply list_elem_of_lookup_2.
  - lookup_cases isbn (books self).
    + left. by rewrite issue_book_absent.
    + destruct (Book.issue user_name now bk).1 as [[]|e] eqn:E.
      * rewrite (issue_book_success _ _ _ _ _ _ Hfm E).
        apply (save_to_file_file (set_books _ self)).
      * left. by rewrite (issue_book_conflict _ _ _ _ _ _ _ Hfm E).
  - lookup_cases isbn (books self).
    + left. by rewrite return_book_absent.
    + destruct (Book.return_book bk).1 as [[]|e] eqn:E.
      * rewrite (return_book_success _ _ _ _ Hfm E).
        apply (save_to_file_file (set_books _ self)).
      * left. by rewrite (return_book_conflict _ _ _ _ _ Hfm E).
  - left. rewrite load_from_file_eq. simpl.
    destruct self as [bs [[msg| |data|msg]|] x lg]; simpl; try done.
    by destruct (books_of data).
Qed.

Lemma step_preserves_unique o self :
  unique_isbns (books self) → stored_unique (file self) →
  unique_isbns (books (step o self).2) ∧ stored_unique (file (step o self).2).
Proof.
  intros Hb Hf.
  assert (Hb' : unique_isbns (books (step o self).2)).
  { assert (o = Load ∨ o ≠ Load) as [->|Hload]
      by (destruct o; auto; right; discriminate); [|by apply step_unique].
    simpl. rewrite load_from_file_eq. simpl.
    destruct self as [bs [[msg| |data|msg]|] x lg]; simpl in *;
      try apply NoDup_nil_2.
    destruct (books_of data) as [bs'|e] eqn:E; simpl; [|apply NoDup_nil_2].
    by eapply Hf. }
  split; [done|].
  destruct (step_file o self) as [-> | [-> | ->]]; [done| |].
  - by intros data bs' [=].
  - intros data bs' [= <-]. rewrite books_of_dumped. by intros [= <-].
Qed.

Lemma session_preserves_unique ops self :
  unique_isbns (books self) → stored_unique (file self) →
  unique_isbns (books (session ops self)) ∧
  stored_unique (file (session ops self)).
Proof.
  revert self. induction ops as [|o ops IH]; intros self Hb Hf; simpl; [done|].
  destruct (step_preserves_unique o self Hb Hf) as [Hb' Hf'].
  by apply IH.
Qed.

Lemma session_identities ops self :
  Forall (λ o, o ≠ Load) ops →
  (identity <$> books self) `prefix_of` (identity <$> books (session ops self)).
Proof.
  intros Hops. revert self.
  induction Hops as [|o ops Ho _ IH]; intros self; simpl; [done|].
  etrans; [by apply step_identities|apply IH].
Qed.

(** X4. ISBNs stay unique.  If no two books of the catalog share an ISBN,
    and the same holds of every list of records the backing file can be
    read as, then both still hold after any sequence of add, issue, return
    and load operations, whatever their arguments and whether or not the
    writes succeed. *)
Theorem isbns_stay_unique (ops : list op) (self : LibraryInventory.t) :
  unique_isbns (books self) →
  stored_unique (file self) →
  unique_isbns (books (session ops self)) ∧
  stored_unique (file (session ops self)).
Proof. apply session_preserves_unique. Qed.

Lemma fresh_unique : unique_isbns (books fresh) ∧ stored_unique (file fresh).
Proof.
  split; [apply NoDup_nil_2|].
  intros data bs [= <-] [= <-]. apply NoDup_nil_2.
Qed.

Lemma isbns_stay_unique_witness :
  unique_isbns
    (books (session [Add dune; Add (Book.new "Dune Messiah" "Herbert" "111");
                     Issue "111" "" noon; Add foundation; Load] fresh)).
Proof.
  exact (proj1 (isbns_stay_unique
    [Add dune; Add (Book.new "Dune Messiah" "Herbert" "111");
     Issue "111" "" noon; Add foundation; Load] fresh
    (proj1 fresh_unique) (proj2 fresh_unique))).
Defined.

(** X5. Nothing is deleted, reordered or renamed.  Along any sequence of
    add, issue and return operations (no reload of the file), the list of
    (title, author, ISBN) of the catalog only grows at its end: every
    record keeps its position, its title, its author and its ISBN. *)
Theorem records_keep_their_identity (ops : list op) (self : LibraryInventory.t) :
  Forall (λ o, o ≠ Load) ops →
  (identity <$> books self) `prefix_of` (identity <$> books (session ops self)).
Proof. apply session_identities. Qed.

Lemma records_keep_their_identity_witness :
  (identity <$> books shelf) `prefix_of`
  (identity <$> books (session [Return "111"; Add dune;
                               Add (Book.new "Solaris" "Lem" "333")] shelf)).
Proof.
  apply (records_keep_their_identity
           [Return "111"; Add dune; Add (Book.new "Solaris" "Lem" "333")] shelf).
  repeat constructor; discriminate.
Defined.

(** ** The file follows the memory *)

Lemma save_to_file_synced self :
  fault self = NoFault → synced (save_to_file self).2.
Proof.
  intros HF. rewrite save_to_file_eq, HF. by destruct self.
Qed.

Lemma step_synced o self :
  fault self = NoFault → synced self → synced (step o self).2.
Proof.
  intros HF Hs. destruct o as [book|isbn user_name now|isbn|]; simpl.
  - lookup_cases (Book.isbn book) (books self).
    + rewrite add_book_fresh by done.
      apply (save_to_file_synced (set_books (books self ++ [book]) self)), HF.
    + destruct Hfm as (Hk & Hisbn & _). rewrite add_book_duplicate; [done|].
      exists bk. split; [|done]. by eapply list_elem_of_lookup_2.
  - lookup_cases isbn (books self).
    + by rewrite issue_book_absent.
    + destruct (Book.issue user_name now bk).1 as [[]|e] eqn:E.
      * rewrite (issue_book_success _ _ _ _ _ _ Hfm E).
        apply (save_to_file_synced (set_books _ self)), HF.
      * by rewrite (issue_book_conflict _ _ _ _ _ _ _ Hfm E).
  - lookup_cases isbn (books self).
    + by rewrite return_book_absent.
    + destruct (Book.return_book bk).1 as [[]|e] eqn:E.
      * rewrite (return_book_success _ _ _ _ Hfm E).
        apply (save_to_file_synced (set_books _ self)), HF.
      * by rewrite (return_book_conflict _ _ _ _ _ Hfm E).
  - rewrite load_from_file_eq. unfold synced in Hs. rewrite Hs.
    rewrite books_of_dumped. simpl. unfold synced. simpl.
    by rewrite Hs.
Qed.

Lemma session_synced ops self :
  fault self = NoFault → synced self → synced (session ops self).
Proof.
  revert self. induction ops as [|o ops IH]; intros self HF Hs; simpl; [done|].
  apply IH; [by rewrite step_fault|by apply step_synced].
Qed.


(** X6. While writes succeed, the file follows the memory.  From a state
    whose file is the JSON image of the collection, any sequence of add,
    issue, return and load operations ends in such a state again; and a new
    [LibraryInventory] constructed on that file, on any file system,
    starts with exactly the books the old one held, and no log record. *)
Theorem file_follows_memory
    (ops : list op) (self : LibraryInventory.t) (x : write_fault) :
  fault self = NoFault → synced self →
  synced (session ops self) ∧
  __init__ (file (session ops self)) x =
    (Ok tt, mk (books (session ops self)) (file (session ops self)) x []).
Proof.
  intros HF Hs. pose proof (session_synced ops self HF Hs) as Hs'.
  split; [done|]. unfold synced in Hs'. rewrite Hs' at 1.
  rewrite init_existing, load_from_file_eq. simpl.
  by rewrite books_of_dumped, Hs'.
Qed.

Lemma fresh_synced : synced fresh.
Proof. reflexivity. Qed.

Lemma file_follows_memory_witness :
  __init__ (file shelf) (OpenFails "[Errno 30] Read-only file system") =
    (Ok tt, mk (books shelf) (file shelf)
               (OpenFails "[Errno 30] Read-only file system") []).
Proof.
  exact (proj2 (file_follows_memory
    [Add dune; Add foundation; Issue "111" "Alice" noon] fresh
    (OpenFails "[Errno 30] Read-only file system") eq_refl fresh_synced)).
Defined.

(** X7. Constructing the inventory raises in one case only: when the path
    cannot be examined, the OSError of [exists()] leaves [_ensure_storage]
    and the constructor, nothing having been written or logged.  In every
    other case it returns normally.  It never writes to a file that exists:
    it only loads it.  When the file is absent it is created holding the
    empty array and the catalog is empty; when that creation fails, the
    failure is logged, and the catalog starts empty, with no file if the
    open failed and with a truncated one, reported as corrupt, if the write
    did. *)
Theorem init_spec :
  (∀ msg x, __init__ (Some (Inaccessible msg)) x =
     (Raise (OSError msg), mk [] (Some (Inaccessible msg)) x [])) ∧
  (∀ f x, (∀ msg, f ≠ Some (Inaccessible msg)) → (__init__ f x).1 = Ok tt) ∧
  (∀ c x, (∀ msg, c ≠ Inaccessible msg) →
          __init__ (Some c) x = load_from_file (mk [] (Some c) x []) ∧
          file (__init__ (Some c) x).2 = Some c) ∧
  __init__ None NoFault =
    (Ok tt, mk [] (Some (Document (JList []))) NoFault []) ∧
  (∀ msg, __init__ None (OpenFails msg) =
     (Ok tt, mk [] None (OpenFails msg)
                [mk_log ERROR ("Failed to save: " +:+ msg) false])) ∧
  (∀ msg, __init__ None (WriteFails msg) =
     (Ok tt, mk [] (Some NotJSON) (WriteFails msg)
                [mk_log ERROR ("Failed to save: " +:+ msg) false;
                 mk_log ERROR "JSON corrupt. Starting empty catalog." false])).
Proof.
  split; [done|]. split; [|split; [|by repeat split]].
  - intros f x Hf. rewrite init_eq.
    destruct f as [[msg| |data|msg]|];
      try apply load_from_file_ok. by destruct (Hf msg).
  - intros c x Hc.
    assert (Heq : __init__ (Some c) x = load_from_file (mk [] (Some c) x [])).
    { rewrite init_eq. destruct c as [msg| |data|msg]; try done.
      by destruct (Hc msg). }
    split; [done|]. rewrite Heq, load_from_file_eq. simpl.
    destruct c as [msg| |data|msg]; simpl; try done.
    by destruct (books_of data).
Qed.

Lemma init_spec_witness :
  (__init__ (Some torn) NoFault).1 = Ok tt ∧
  file (__init__ (Some torn) NoFault).2 = Some torn.
Proof.
  destruct init_spec as (_ & H2 & H3 & _).
  split.
  - apply H2. discriminate.
  - apply (H3 torn NoFault). discriminate.
Defined.

(** ** Issue and return, composed *)

Lemma first_match_insert isbn (bs : list Book.t) i b b' :
  first_match isbn bs i b → Book.isbn b' = isbn →
  first_match isbn (<[i := b']> bs) i b'.
Proof.
  intros (Hi & Hisbn & Hmin) Hb'. split; [|split; [done|]].
  - apply list_lookup_insert_eq. by eapply lookup_lt_Some.
  - intros j bj Hj Hlt. rewrite list_lookup_insert_ne in Hj by lia.
    by apply (Hmin j).
Qed.

Lemma issue_book_ok_inv self isbn user_name now :
  (issue_book isbn user_name now self).1 = Ok tt →
  ∃ i b, first_match isbn (books self) i b ∧ Book.is_available b = true ∧
    books (issue_book isbn user_name now self).2 =
      <[i := Book.mk (Book.title b) (Book.author b) (Book.isbn b)
                     "issued" user_name (isoformat now)]> (books self).
Proof.
  intros Hok. lookup_cases isbn (books self).
  - by rewrite issue_book_absent in Hok.
  - exists k, bk. split; [done|].
    destruct (Book.is_available bk) eqn:E.
    + split; [done|].
      rewrite (issue_book_success _ _ _ _ k bk) by (by rewrite ?issue_available).
      by rewrite save_to_file_books, issue_available.
    + pose proof (issue_book_conflict self isbn user_name now k bk _ Hfm
                    (f_equal fst (issue_unavailable user_name now bk E))) as Hc.
      by rewrite Hc in Hok.
Qed.

(** X8. Issuing a book and returning it restores the catalog.  If the first
    record with the ISBN is available with empty [issued_to] and
    [issued_on] (as every new or returned book is), then [issue_book]
    followed by [return_book] for that ISBN both return normally and the
    collection in memory is what it was. *)
Theorem issue_then_return_restores
    (self : LibraryInventory.t) (isbn user_name : string) (now : datetime)
    (i : nat) (b : Book.t) :
  first_match isbn (books self) i b →
  Book.status b = "available" →
  Book.issued_to b = "" → Book.issued_on b = "" →
  (issue_book isbn user_name now self).1 = Ok tt ∧
  (return_book isbn (issue_book isbn user_name now self).2).1 = Ok tt ∧
  books (return_book isbn (issue_book isbn user_name now self).2).2 =
    books self.
Proof.
  intros Hf Hst Hto Hon. pose proof Hf as (Hi & Hisbn & _).
  assert (Hav : Book.is_available b = true) by by apply is_available_true.
  set (b' := Book.mk (Book.title b) (Book.author b) (Book.isbn b)
                     "issued" user_name (isoformat now)).
  assert (Hissue : Book.issue user_name now b = (Ok tt, b'))
    by by apply issue_available.
  assert (H1 : issue_book isbn user_name now self =
                 save_to_file (set_books (<[i := b']> (books self)) self)).
  { rewrite (issue_book_success _ _ _ _ i b); [by rewrite Hissue|done|].
    by rewrite Hissue. }
  set (s1 := (issue_book isbn user_name now self).2).
  assert (Hb1 : books s1 = <[i := b']> (books self)).
  { unfold s1. by rewrite H1, save_to_file_books. }
  assert (Hf1 : first_match isbn (books s1) i b').
  { rewrite Hb1. by apply (first_match_insert _ _ _ b). }
  assert (Hret : Book.return_book b' = (Ok tt, b)).
  { rewrite return_unavailable by done. simpl.
    destruct b. simpl in *. by subst. }
  assert (H2 : return_book isbn s1 =
                 save_to_file (set_books (<[i := b]> (books s1)) s1)).
  { rewrite (return_book_success _ _ i b'); [by rewrite Hret|done|].
    by rewrite Hret. }
  split; [by rewrite H1, save_to_file_ok|].
  split; [by rewrite H2, save_to_file_ok|].
  rewrite H2, save_to_file_books. simpl.
  rewrite Hb1, list_insert_insert_eq. by apply list_insert_id.
Qed.

Lemma issue_then_return_restores_witness :
  books (return_book "222" (issue_book "222" "Bob" noon shelf).2).2 = books shelf.
Proof.
  exact (proj2 (proj2 (issue_then_return_restores shelf "222" "Bob" noon 1
    foundation first_match_foundation eq_refl eq_refl eq_refl))).
Defined.

(** X9. A book cannot be issued twice.  After an [issue_book] that
    returned normally, a second [issue_book] for the same ISBN, for any
    user and at any time, raises the conflict error that names the first
    user, and leaves the whole state (books, file and log) as the first
    call left it. *)
Theorem issue_twice_conflicts
    (self : LibraryInventory.t) (isbn u1 u2 : string) (t1 t2 : datetime) :
  (issue_book isbn u1 t1 self).1 = Ok tt →
  issue_book isbn u2 t2 (issue_book isbn u1 t1 self).2 =
    (Raise (Exception ("Book already issued to " +:+ u1 +:+ ".")),
     (issue_book isbn u1 t1 self).2).
Proof.
  intros Hok. destruct (issue_book_ok_inv _ _ _ _ Hok) as (i & b & Hf & Hav & Hb).
  pose proof Hf as (_ & Hisbn & _).
  eapply (issue_book_conflict _ _ _ _ i).
  - rewrite Hb. by apply (first_match_insert _ _ _ b).
  - by rewrite issue_unavailable.
Qed.

Lemma issue_twice_conflicts_witness :
  issue_book "222" "Carol" noon (issue_book "222" "Bob" noon shelf).2 =
    (Raise (Exception "Book already issued to Bob."),
     (issue_book "222" "Bob" noon shelf).2).
Proof.
  exact (issue_twice_conflicts shelf "222" "Bob" "Carol" noon noon eq_refl).
Defined.

(** ** Books and keyword dictionaries *)

Lemma to_dict_lookups b :
  Book.to_dict b !! "title" = Some (Book.title b) ∧
  Book.to_dict b !! "author" = Some (Book.author b) ∧
  Book.to_dict b !! "isbn" = Some (Book.isbn b) ∧
  Book.to_dict b !! "status" = Some (Book.status b) ∧
  Book.to_dict b !! "issued_to" = Some (Book.issued_to b) ∧
  Book.to_dict b !! "issued_on" = Some (Book.issued_on b).
Proof. destruct b. vm_compute. repeat split. Qed.

Lemma init_ok_inv kwargs b :
  Book.init kwargs = Ok b →
  (∀ k, is_Some (kwargs !! k) → k ∈ Book.fields) ∧
  kwargs !! "title" = Some (Book.title b) ∧
  kwargs !! "author" = Some (Book.author b) ∧
  kwargs !! "isbn" = Some (Book.isbn b) ∧
  Book.status b = default "available" (kwargs !! "status") ∧
  Book.issued_to b = default "" (kwargs !! "issued_to") ∧
  Book.issued_on b = default "" (kwargs !! "issued_on").
Proof.
  unfold Book.init. case_bool_decide as HF; [|done].
  destruct (kwargs !! "title") eqn:E1; [|done].
  destruct (kwargs !! "author") eqn:E2; [|done].
  destruct (kwargs !! "isbn") eqn:E3; [|done].
  intros [= <-]. simpl. repeat split; try done.
  intros k [v Hv]. exact (HF k v Hv).
Qed.

(** X10. Books and keyword dictionaries.  [to_dict] followed by the
    construction of a [Book] from the keywords gives the book back, so two
    books with the same dictionary are equal.  Conversely a book constructed
    from keywords shows every keyword it was given when turned into a
    dictionary again, and has status "available", and empty [issued_to] and
    [issued_on], where these keywords were missing. *)
Theorem kwargs_roundtrip :
  (∀ b, Book.init (Book.to_dict b) = Ok b) ∧
  (∀ b1 b2, Book.to_dict b1 = Book.to_dict b2 → b1 = b2) ∧
  (∀ kwargs b,
     Book.init kwargs = Ok b →
     kwargs ⊆ Book.to_dict b ∧
     (kwargs !! "status" = None → Book.status b = "available") ∧
     (kwargs !! "issued_to" = None → Book.issued_to b = "") ∧
     (kwargs !! "issued_on" = None → Book.issued_on b = "")).
Proof.
  split; [apply init_to_dict|]. split.
  - intros b1 b2 Heq. pose proof (init_to_dict b1) as H1.
    rewrite Heq, init_to_dict in H1. congruence.
  - intros kwargs b (HF & Ht & Ha & Hi & Hs & Hto & Hon)%init_ok_inv.
    destruct (to_dict_lookups b) as (Lt & La & Li & Ls & Lto & Lon).
    split; [|by repeat split; intros HN; rewrite HN in *].
    apply map_subseteq_spec. intros k v Hk.
    assert (Hin : k ∈ Book.fields) by (apply HF; eauto).
    unfold Book.fields in Hin.
    repeat (apply elem_of_cons in Hin as [->|Hin]);
      [| | | | | |by apply elem_of_nil in Hin]; try congruence.
    + rewrite Hk in Hs. simpl in Hs. congruence.
    + rewrite Hk in Hto. simpl in Hto. congruence.
    + rewrite Hk in Hon. simpl in Hon. congruence.
Qed.

Lemma kwargs_roundtrip_witness :
  Book.init {["title" := "Dune"; "author" := "Herbert"; "isbn" := "111"]} = Ok dune ∧
  Book.status dune = "available".
Proof.
  destruct kwargs_roundtrip as (_ & _ & H).
  assert (Hinit : Book.init {["title" := "Dune"; "author" := "Herbert";
                              "isbn" := "111"]} = Ok dune) by reflexivity.
  split; [exact Hinit|].
  exact (proj1 (proj2 (H _ _ Hinit)) eq_refl).
Defined.

(** ** Search by title: the empty query and the full title *)

Lemma append_nil_r s : s +:+ "" = s.
Proof. induction s as [|c s IH]; [done|]. by rewrite append_cons, IH. Qed.

Lemma contains_refl s : contains s s = true.
Proof. apply contains_spec. exists "", "". by rewrite append_nil, append_nil_r. Qed.

Lemma contains_empty s : contains "" s = true.
Proof. apply contains_spec. by exists "", s. Qed.

Lemma filter_all (f : Book.t → bool) bs :
  (∀ b, b ∈ bs → f b = true) → List.filter f bs = bs.
Proof.
  induction bs as [|b bs IH]; intros Hall; simpl; [done|].
  rewrite Hall by left. f_equal. apply IH. intros b' Hb'. apply Hall. by right.
Qed.

(** X11. Two edge cases of [search_by_title].  Searching for the full
    title of a book of the catalog always finds that book.  And where
    lowering the empty string gives the empty string (as [str.lower]
    does), the empty query returns the whole catalog. *)
Theorem search_by_title_edge_cases
    (lower : string → string) (self : LibraryInventory.t) :
  (∀ b, b ∈ books self →
     ∃ found, search_by_title lower (Book.title b) self = (Ok found, self) ∧
              b ∈ found) ∧
  (lower "" = "" →
   search_by_title lower "" self = (Ok (books self), self)).
Proof.
  split.
  - intros b Hb. eexists. split; [reflexivity|].
    apply list_elem_of_In, filter_In. split; [by apply list_elem_of_In|].
    apply contains_refl.
  - intros Hl. unfold search_by_title, gets. rewrite Hl.
    rewrite filter_all; [done|]. intros b _. apply contains_empty.
Qed.

Lemma search_by_title_edge_cases_witness :
  search_by_title ascii_lower "" shelf = (Ok (books shelf), shelf).
Proof.
  exact (proj2 (search_by_title_edge_cases ascii_lower shelf) eq_refl).
Defined.

(** * Properties of the menu *)

Lemma session_app ops1 ops2 self :
  session (ops1 ++ ops2)%list self = session ops2 (session ops1 self).
Proof. revert self. induction ops1 as [|o ops1 IH]; intros self; simpl; [done|apply IH]. Qed.

Lemma tame_ret {A} (a : A) : tame (CLI.io_ret a).
Proof.
  intros c r c' [= <- <-]. split; [by exists []|]. done.
Qed.

Lemma tame_print line : tame (CLI.print line).
Proof.
  intros c r c' [= <- <-]. split; [by exists []|]. done.
Qed.

Lemma tame_now : tame CLI.now.
Proof.
  intros c r c' [= <- <-]. split; [by exists []|]. done.
Qed.

Lemma tame_input prompt : tame (CLI.input prompt).
Proof.
  intros c r c'. unfold CLI.input.
  destruct (CLI.stdin c) as [|line rest] eqn:E; intros [= <- <-];
    (split; [by exists []|]); simpl; split; try done. lia.
Qed.

Lemma tame_bind {A B} (m : CLI.IO A) (k : A → CLI.IO B) :
  tame m → (∀ a, tame (k a)) → tame (CLI.io_bind m k).
Proof.
  intros Hm Hk c r c'. unfold CLI.io_bind.
  destruct (m c) as [r1 c1] eqn:E1.
  destruct (Hm c r1 c1 E1) as ((ops1 & Hops1 & Hinv1) & Hlen1 & Hr1).
  destruct r1 as [a|e| |code].
  - intros E2.
    destruct (Hk a c1 r c' E2) as ((ops2 & Hops2 & Hinv2) & Hlen2 & Hr2).
    split; [|split; [lia|done]].
    exists (ops1 ++ ops2)%list. split; [by apply Forall_app|].
    by rewrite session_app, <- Hinv1.
  - done.
  - intros [= <- <-]. split; [by exists ops1|]. done.
  - intros [= <- <-]. split; [by exists ops1|]. done.
Qed.

(** A method that neither raises nor changes the inventory. *)
Lemma tame_call_read_only {A} (m : M LibraryInventory.t A) :
  (∀ inv, ∃ a, m inv = (Ok a, inv)) → tame (CLI.call m).
Proof.
  intros Hm c r c'. unfold CLI.call.
  destruct (Hm (CLI.inventory c)) as [a ->]. intros [= <- <-].
  split; [by exists []|]. done.
Qed.

Lemma tame_try_print o done :
  menu_op o → tame (CLI.try_print (step o) done).
Proof.
  intros Ho c r c'. unfold CLI.try_print.
  destruct (step o (CLI.inventory c)) as [[[]|e] inv] eqn:E;
    intros [= <- <-]; (split; [|done]); exists [o];
    (split; [by constructor|]); simpl; by rewrite E.
Qed.

Lemma tame_print_books bs : tame (CLI.print_books bs).
Proof.
  induction bs as [|b bs IH]; simpl; [apply tame_ret|].
  apply tame_bind; [apply tame_print|done].
Qed.

Lemma tame_goodbye : tame (CLI.io_bind (CLI.print "Goodbye!") (λ _, CLI.sys_exit (A:=unit) 0)).
Proof.
  intros c r c' [= <- <-]. split; [by exists []|]. simpl.
  split; [done|]. split; [done|]. apply last_snoc.
Qed.

Lemma tame_menu : tame CLI.menu.
Proof.
  unfold CLI.menu.
  repeat (apply tame_bind; [apply tame_print|intros _]). apply tame_input.
Qed.

Lemma tame_view_books : tame CLI.view_books.
Proof.
  apply tame_bind.
  - apply tame_call_read_only. intros inv. by eexists.
  - intros [|b bs]; [apply tame_print|apply tame_print_books].
Qed.

Section Menu.

Variable strip : string → string.
Variable lower : string → string.

Lemma tame_add_book_flow : tame (CLI.add_book_flow strip).
Proof.
  unfold CLI.add_book_flow.
  apply tame_bind; [apply tame_input|intros t].
  apply tame_bind; [apply tame_input|intros a].
  apply tame_bind; [apply tame_input|intros i].
  destruct (bool_decide (strip t = "")) eqn:Et; [apply tame_print|].
  destruct (bool_decide (strip i = "")) eqn:Ei; [apply tame_print|].
  simpl. apply (tame_try_print (Add (Book.new (strip t) (strip a) (strip i)))).
  exists (strip t), (strip a), (strip i).
  apply bool_decide_eq_false in Et, Ei. done.
Qed.

Lemma tame_issue_flow : tame (CLI.issue_flow strip).
Proof.
  unfold CLI.issue_flow.
  apply tame_bind; [apply tame_input|intros isbn].
  apply tame_bind; [apply tame_input|intros user].
  apply tame_bind; [apply tame_now|intros time].
  by apply (tame_try_print (Issue (strip isbn) (strip user) time)).
Qed.

Lemma tame_return_flow : tame (CLI.return_flow strip).
Proof.
  unfold CLI.return_flow.
  apply tame_bind; [apply tame_input|intros isbn].
  by apply (tame_try_print (Return (strip isbn))).
Qed.

Lemma tame_search_title : tame (CLI.search_title strip lower).
Proof.
  unfold CLI.search_title.
  apply tame_bind; [apply tame_input|intros text].
  apply tame_bind.
  - apply tame_call_read_only. intros inv. by eexists.
  - intros [|b bs]; [apply tame_print|apply tame_print_books].
Qed.

Lemma tame_search_isbn : tame (CLI.search_isbn strip).
Proof.
  unfold CLI.search_isbn.
  apply tame_bind; [apply tame_input|intros isbn].
  apply tame_bind.
  - apply tame_call_read_only. intros inv. by eexists.
  - intros [ref|]; apply tame_print.
Qed.

Lemma tame_dispatch choice : tame (CLI.dispatch strip lower choice).
Proof.
  unfold CLI.dispatch.
  repeat case_bool_decide;
    auto using tame_add_book_flow, tame_issue_flow, tame_return_flow,
               tame_view_books, tame_search_title, tame_search_isbn,
               tame_goodbye, tame_print.
Qed.

(** One round of the loop reads at least the choice. *)
Lemma bind_print_inv {A} line (k : unit → CLI.IO A) c r c' :
  CLI.io_bind (CLI.print line) k c = (r, c') →
  ∃ c0, CLI.stdin c0 = CLI.stdin c ∧ CLI.inventory c0 = CLI.inventory c ∧
        k tt c0 = (r, c').
Proof. intros H. eexists. split; [|split; [|exact H]]; done. Qed.

Lemma input_inv prompt c line c1 :
  CLI.input prompt c = (CLI.Val line, c1) →
  CLI.stdin c = line :: CLI.stdin c1 ∧ CLI.inventory c1 = CLI.inventory c.
Proof.
  unfold CLI.input. destruct (CLI.stdin c) as [|l rest]; [done|].
  by intros [= <- <-].
Qed.

Lemma menu_reads c choice c1 :
  CLI.menu c = (CLI.Val choice, c1) →
  List.length (CLI.stdin c) = S (List.length (CLI.stdin c1)).
Proof.
  unfold CLI.menu. intros H.
  do 8 (apply bind_print_inv in H as (? & <- & _ & H)).
  apply input_inv in H as [-> _]. done.
Qed.

Lemma round_tame : tame (CLI.io_bind CLI.menu (λ choice, CLI.dispatch strip lower choice)).
Proof. apply tame_bind; [apply tame_menu|apply tame_dispatch]. Qed.

Lemma round_reads c u c' :
  (CLI.io_bind CLI.menu (λ choice, CLI.dispatch strip lower choice)) c = (CLI.Val u, c') →
  (List.length (CLI.stdin c') < List.length (CLI.stdin c))%nat.
Proof.
  unfold CLI.io_bind at 1. destruct (CLI.menu c) as [[choice|e| |code] c1] eqn:E1;
    try done.
  intros E2. apply menu_reads in E1.
  destruct (tame_dispatch choice c1 _ c' E2) as (_ & Hlen & _). lia.
Qed.

Lemma main_loop_ends fuel c :
  (List.length (CLI.stdin c) < fuel)%nat →
  ∃ r c' ops,
    CLI.main_loop strip lower fuel c = Some (r, c') ∧
    (r = CLI.SystemExit 0 ∧ last (CLI.stdout c') = Some "Goodbye!" ∨
     r = CLI.EOFError ∧ CLI.stdin c' = []) ∧
    Forall menu_op ops ∧
    CLI.inventory c' = session ops (CLI.inventory c).
Proof.
  revert c. induction fuel as [|fuel IH]; intros c Hlen; [lia|].
  simpl.
  destruct ((CLI.io_bind CLI.menu (λ choice, CLI.dispatch strip lower choice)) c)
    as [r c1] eqn:E.
  destruct (round_tame c r c1 E) as ((ops1 & Hops1 & Hinv1) & Hlen1 & Hr).
  destruct r as [[]|e| |code].
  - apply round_reads in E.
    destruct (IH c1) as (r & c' & ops2 & Hrun & Hend & Hops2 & Hinv2); [lia|].
    exists r, c', (ops1 ++ ops2)%list. split; [done|]. split; [done|].
    split; [by apply Forall_app|]. by rewrite session_app, <- Hinv1.
  - done.
  - exists CLI.EOFError, c1, ops1. split; [done|]. split; [by right|done].
  - destruct Hr as [-> Hlast].
    exists (CLI.SystemExit 0), c1, ops1. split; [done|]. split; [by left|done].
Qed.

End Menu.

(** ** Option 1: adding a book *)

Lemma input_eq prompt c line rest :
  CLI.stdin c = line :: rest →
  CLI.input prompt c =
    (CLI.Val line,
     CLI.mk (CLI.inventory c) rest (CLI.stdout c ++ [prompt])
            (CLI.clock c) (CLI.ticks c)).
Proof. unfold CLI.input. by intros ->. Qed.

Lemma bind_val {A B} (m : CLI.IO A) (k : A → CLI.IO B) c a c1 :
  m c = (CLI.Val a, c1) → CLI.io_bind m k c = k a c1.
Proof. unfold CLI.io_bind. by intros ->. Qed.

Lemma add_book_flow_eq strip c t a i rest :
  CLI.stdin c = t :: a :: i :: rest →
  CLI.add_book_flow strip c =
    (if bool_decide (strip t = "") || bool_decide (strip i = "") then
       CLI.print "Title and ISBN required!"
     else
       CLI.try_print
         (add_book (Book.new (strip t) (strip a) (strip i))) "Book added.")
      (CLI.mk (CLI.inventory c) rest
              (CLI.stdout c ++ ["Title: "; "Author: "; "ISBN: "])
              (CLI.clock c) (CLI.ticks c)).
Proof.
  intros Hin. destruct c as [inv sin out cl tk]. cbn in Hin. subst sin.
  unfold CLI.add_book_flow.
  rewrite (bind_val _ _ _ _ _ (input_eq "Title: " (CLI.mk inv _ _ cl tk) t _ eq_refl)).
  rewrite (bind_val _ _ _ _ _ (input_eq "Author: " (CLI.mk inv _ _ cl tk) a _ eq_refl)).
  rewrite (bind_val _ _ _ _ _ (input_eq "ISBN: " (CLI.mk inv _ _ cl tk) i _ eq_refl)).
  cbn [CLI.inventory CLI.stdin CLI.stdout CLI.clock CLI.ticks].
  by rewrite <- !app_assoc.
Qed.

(** X12. Option 1 of the menu, when three lines can be read.  After the
    three prompts exactly one more line is printed and the flow returns
    normally.  If the stripped title or the stripped ISBN is empty, the line
    is "Title and ISBN required!" and the inventory is untouched.  If some
    book has the stripped ISBN, the line is "Error: ISBN already exists in
    catalog." and the inventory is untouched.  Otherwise the line is "Book
    added." and the catalog has one more book at its end: the new book with
    the stripped title, author and ISBN. *)
Theorem add_book_flow_spec
    (strip : string → string) (c : CLI.t) (t a i : string) (rest : list string) :
  CLI.stdin c = t :: a :: i :: rest →
  ∃ line inv,
    CLI.add_book_flow strip c =
      (CLI.Val tt,
       CLI.mk inv rest
              (CLI.stdout c ++ ["Title: "; "Author: "; "ISBN: "; line])
              (CLI.clock c) (CLI.ticks c)) ∧
    (((strip t = "" ∨ strip i = "") ∧
      line = "Title and ISBN required!" ∧ inv = CLI.inventory c) ∨
     (strip t ≠ "" ∧ strip i ≠ "" ∧
      (∃ b, b ∈ books (CLI.inventory c) ∧ Book.isbn b = strip i) ∧
      line = "Error: ISBN already exists in catalog." ∧
      inv = CLI.inventory c) ∨
     (strip t ≠ "" ∧ strip i ≠ "" ∧
      (∀ b, b ∈ books (CLI.inventory c) → Book.isbn b ≠ strip i) ∧
      line = "Book added." ∧
      books inv =
        (books (CLI.inventory c) ++ [Book.new (strip t) (strip a) (strip i)])%list)).
Proof.
  intros Hin. rewrite (add_book_flow_eq strip c t a i rest Hin).
  destruct (bool_decide (strip t = "")) eqn:Et.
  { apply bool_decide_eq_true in Et. eexists _, _. split.
    - unfold CLI.print. cbn [CLI.inventory CLI.stdin CLI.stdout CLI.clock CLI.ticks orb].
      by rewrite <- app_assoc.
    - left. auto. }
  destruct (bool_decide (strip i = "")) eqn:Ei.
  { apply bool_decide_eq_true in Ei. eexists _, _. split.
    - unfold CLI.print. cbn [CLI.inventory CLI.stdin CLI.stdout CLI.clock CLI.ticks orb].
      by rewrite <- app_assoc.
    - left. auto. }
  apply bool_decide_eq_false in Et, Ei. cbn [orb].
  unfold CLI.try_print. cbn [CLI.inventory].
  set (book := Book.new (strip t) (strip a) (strip i)).
  lookup_cases (Book.isbn book) (books (CLI.inventory c)).
  - rewrite add_book_fresh by done. eexists _, _. split.
    + unfold CLI.print, CLI.set_inventory.
      cbn [CLI.inventory CLI.stdin CLI.stdout CLI.clock CLI.ticks].
      by rewrite <- app_assoc.
    + right; right. repeat split; try done.
      simpl. by rewrite save_to_file_books.
  - destruct Hfm as (Hk & Hisbn & _).
    assert (Hdup : ∃ b, b ∈ books (CLI.inventory c) ∧ Book.isbn b = Book.isbn book).
    { exists bk. split; [|done]. by eapply list_elem_of_lookup_2. }
    rewrite (add_book_duplicate _ _ Hdup). eexists _, _. split.
    + unfold CLI.print, CLI.set_inventory.
      cbn [CLI.inventory CLI.stdin CLI.stdout CLI.clock CLI.ticks].
      by rewrite <- app_assoc.
    + right; left. done.
Qed.

Lemma add_book_flow_spec_witness :
  ∃ line inv,
    CLI.add_book_flow ascii_strip (console ["  Dune "; "Herbert"; " 111"; "7"]) =
      (CLI.Val tt,
       CLI.mk inv ["7"] ([] ++ ["Title: "; "Author: "; "ISBN: "; line])
              (λ _, noon) 0).
Proof.
  destruct (add_book_flow_spec ascii_strip
              (console ["  Dune "; "Herbert"; " 111"; "7"])
              "  Dune " "Herbert" " 111" ["7"] eq_refl)
    as (line & inv & H & _).
  exists line, inv. exact H.
Defined.

(** ** The loop *)

(** X13. [main] ends on every input, in one of two ways: with SystemExit
    of code 0, "Goodbye!" being the last thing printed, or with the
    EOFError of [input] when the lines have run out.  No exception of the
    inventory escapes it.  What it has done to the inventory is what some
    sequence of add, issue and return operations does, each added book new
    with a non-empty title and ISBN; the file is never reloaded. *)
Theorem main_ends (strip lower : string → string) (c : CLI.t) :
  ∃ r c' ops,
    CLI.main strip lower c = Some (r, c') ∧
    (r = CLI.SystemExit 0 ∧ last (CLI.stdout c') = Some "Goodbye!" ∨
     r = CLI.EOFError ∧ CLI.stdin c' = []) ∧
    Forall menu_op ops ∧
    CLI.inventory c' = session ops (CLI.inventory c).
Proof. apply main_loop_ends. lia. Qed.

(** ** What the menu keeps *)

Lemma issue_menu_book user_name now b :
  menu_book b → menu_book (Book.issue user_name now b).2.
Proof.
  intros Hb. destruct (Book.is_available b) eqn:E.
  - rewrite issue_available by done. destruct Hb as (Ht & Hi & _).
    repeat split; [done..|]. right. split; [done|]. apply isoformat_nonempty.
  - by rewrite issue_unavailable.
Qed.

Lemma return_menu_book b : menu_book b → menu_book (Book.return_book b).2.
Proof.
  intros Hb. destruct (Book.is_available b) eqn:E.
  - by rewrite return_available.
  - rewrite return_unavailable by done. destruct Hb as (Ht & Hi & _).
    repeat split; [done..|]. by left.
Qed.

Lemma step_menu_books o self :
  menu_op o → Forall menu_book (books self) →
  Forall menu_book (books (step o self).2).
Proof.
  intros Ho Hb. destruct o as [book|isbn user_name now|isbn|]; simpl in *; [| | |done].
  - destruct (add_book_books self book) as [->| ->]; [done|].
    apply Forall_app. split; [done|]. constructor; [|done].
    destruct Ho as (t & a & i & -> & Ht & Hi). repeat split; [done..|]. by left.
  - destruct (issue_book_books self isbn user_name now)
      as [->|(k & bk & (Hk & _) & ->)]; [done|].
    apply Forall_insert; [done|]. apply issue_menu_book.
    by eapply Forall_lookup_1.
  - destruct (return_book_books self isbn) as [->|(k & bk & (Hk & _) & ->)]; [done|].
    apply Forall_insert; [done|]. apply return_menu_book.
    by eapply Forall_lookup_1.
Qed.

Lemma session_menu_books ops self :
  Forall menu_op ops →
  Forall menu_book (books self) → unique_isbns (books self) →
  Forall menu_book (books (session ops self)) ∧
  unique_isbns (books (session ops self)).
Proof.
  intros Hops. revert self.
  induction Hops as [|o ops Ho _ IH]; intros self Hb Hu; simpl; [done|].
  apply IH; [by apply step_menu_books|].
  apply step_unique; [|done]. intros ->. done.
Qed.

(** X14. The catalogs the menu can reach.  If every book of the catalog
    has a non-empty title and ISBN and is either available with empty
    [issued_to] and [issued_on] or issued with a non-empty [issued_on], and
    no two books share an ISBN, then [main] ends, on any input, with a
    catalog of which all this still holds. *)
Theorem menu_keeps_catalog_well_formed
    (strip lower : string → string) (c : CLI.t) :
  Forall menu_book (books (CLI.inventory c)) →
  unique_isbns (books (CLI.inventory c)) →
  ∃ r c',
    CLI.main strip lower c = Some (r, c') ∧
    Forall menu_book (books (CLI.inventory c')) ∧
    unique_isbns (books (CLI.inventory c')).
Proof.
  intros Hb Hu.
  destruct (main_loop_ends strip lower (S (List.length (CLI.stdin c))) c)
    as (r & c' & ops & Hrun & _ & Hops & Hinv); [lia|].
  exists r, c'. split; [done|]. rewrite Hinv.
  by apply session_menu_books.
Qed.

Lemma menu_keeps_catalog_well_formed_witness :
  ∃ r c',
    CLI.main ascii_strip ascii_lower
      (console ["1"; "Dune"; "Herbert"; "111"; "2"; "111"; ""; "1"; "Dune";
                ""; "111"; "3"; "222"; "x"]) = Some (r, c') ∧
    Forall menu_book (books (CLI.inventory c')) ∧
    unique_isbns (books (CLI.inventory c')).
Proof.
  apply (menu_keeps_catalog_well_formed ascii_strip ascii_lower
           (console ["1"; "Dune"; "Herbert"; "111"; "2"; "111"; ""; "1"; "Dune";
                     ""; "111"; "3"; "222"; "x"])).
  - constructor.
  - apply NoDup_nil_2.
Defined.

(** ** The options that only look *)

Lemma quiet_print line : quiet (CLI.print line).
Proof. by intros c. Qed.

Lemma quiet_input prompt : quiet (CLI.input prompt).
Proof. intros c. unfold CLI.input. by destruct (CLI.stdin c). Qed.

Lemma quiet_bind {A B} (m : CLI.IO A) (k : A → CLI.IO B) :
  quiet m → (∀ a, quiet (k a)) → quiet (CLI.io_bind m k).
Proof.
  intros Hm Hk c. unfold CLI.io_bind. specialize (Hm c).
  destruct (m c) as [[a|e| |code] c1]; simpl in *; try done.
  by rewrite Hk.
Qed.

Lemma quiet_call {A} (m : M LibraryInventory.t A) :
  (∀ inv, (m inv).2 = inv) → quiet (CLI.call m).
Proof.
  intros Hm c. unfold CLI.call. specialize (Hm (CLI.inventory c)).
  destruct (m (CLI.inventory c)) as [[a|e] inv]; simpl in *; by subst.
Qed.

Lemma quiet_print_books bs : quiet (CLI.print_books bs).
Proof.
  induction bs as [|b bs IH]; simpl; [done|].
  apply quiet_bind; [apply quiet_print|done].
Qed.

Lemma quiet_view_books : quiet CLI.view_books.
Proof.
  apply quiet_bind; [by apply quiet_call|].
  intros [|b bs]; [apply quiet_print|apply quiet_print_books].
Qed.

Lemma quiet_search_title strip lower : quiet (CLI.search_title strip lower).
Proof.
  apply quiet_bind; [apply quiet_input|intros text].
  apply quiet_bind; [by apply quiet_call|].
  intros [|b bs]; [apply quiet_print|apply quiet_print_books].
Qed.

Lemma quiet_search_isbn strip : quiet (CLI.search_isbn strip).
Proof.
  apply quiet_bind; [apply quiet_input|intros isbn].
  apply quiet_bind; [by apply quiet_call|].
  intros [ref|]; apply quiet_print.
Qed.

(** X15. Only the options 1, 2 and 3 can change the inventory.  Whatever
    else is typed at the menu (4, 5, 6, 7 or any other text), and whatever
    is typed after it, the books, the file and the log are afterwards what
    they were. *)
Theorem other_options_change_nothing
    (strip lower : string → string) (choice : string) (c : CLI.t) :
  choice ≠ "1" → choice ≠ "2" → choice ≠ "3" →
  CLI.inventory (CLI.dispatch strip lower choice c).2 = CLI.inventory c.
Proof.
  intros H1 H2 H3. unfold CLI.dispatch.
  rewrite !bool_decide_eq_false_2 by done.
  repeat case_bool_decide;
    first [apply quiet_view_books | apply quiet_search_title
          | apply quiet_search_isbn | apply quiet_print | done].
Qed.

Lemma other_options_change_nothing_witness :
  CLI.inventory
    (CLI.dispatch ascii_strip ascii_lower "5"
       (CLI.mk shelf ["dune"; "7"] [] (λ _, noon) 0)).2 = shelf.
Proof.
  apply (other_options_change_nothing ascii_strip ascii_lower "5"
           (CLI.mk shelf ["dune"; "7"] [] (λ _, noon) 0)); discriminate.
Defined.

(** ** Option 4: the listing *)

Lemma print_books_eq bs c :
  CLI.print_books bs c =
    (CLI.Val tt,
     CLI.mk (CLI.inventory c) (CLI.stdin c)
            (CLI.stdout c ++ (Book.__str__ <$> bs))
            (CLI.clock c) (CLI.ticks c)).
Proof.
  revert c. induction bs as [|b bs IH]; intros c.
  - simpl. unfold CLI.io_ret. rewrite app_nil_r. by destruct c.
  - change (CLI.print_books (b :: bs))
      with (CLI.io_bind (CLI.print (Book.__str__ b)) (λ _, CLI.print_books bs)).
    unfold CLI.io_bind, CLI.print. rewrite IH.
    cbn [CLI.inventory CLI.stdin CLI.stdout CLI.clock CLI.ticks].
    by rewrite fmap_cons, <- app_assoc.
Qed.

(** X16. Option 4 prints the catalog and changes nothing else: one line
    per book, in the order of the catalog, each the [__str__] of the book,
    or the single line "No books in catalog." when there is none. *)
Theorem view_books_prints (c : CLI.t) :
  CLI.view_books c =
    (CLI.Val tt,
     CLI.mk (CLI.inventory c) (CLI.stdin c)
            (CLI.stdout c ++
               match books (CLI.inventory c) with
               | [] => ["No books in catalog."]
               | bs => Book.__str__ <$> bs
               end)
            (CLI.clock c) (CLI.ticks c)).
Proof.
  unfold CLI.view_books, CLI.io_bind, CLI.call, display_all, gets.
  cbn [fst snd]. destruct (books (CLI.inventory c)) as [|b bs] eqn:E.
  - unfold CLI.print, CLI.set_inventory. by destruct c.
  - rewrite print_books_eq. unfold CLI.set_inventory. by destruct c.
Qed.

Example view_shelf :
  CLI.stdout (CLI.view_books (CLI.mk shelf [] [] (λ _, noon) 0)).2 =
    ["Dune by Herbert | ISBN: 111 | Status: issued | Issued to: Alice on 2024-03-07T12:00:00";
     "Foundation by Asimov | ISBN: 222 | Status: available"].
Proof. reflexivity. Qed.

Example a_session_at_the_menu :
  ∃ c, CLI.main ascii_strip ascii_lower
         (console ["1"; "  Dune "; "Herbert"; " 111"; "2"; "111"; "Alice";
                   "2"; "111"; "Bob"; "3"; "999"; "7"; "ignored"]) =
         Some (CLI.SystemExit 0, c) ∧
       books (CLI.inventory c) =
         [Book.mk "Dune" "Herbert" "111" "issued" "Alice" "2024-03-07T12:00:00"] ∧
       CLI.stdin c = ["ignored"] ∧
       filter (λ line, line ∈ ["Book added."; "Book issued.";
                               "Error: Book already issued to Alice.";
                               "Error: Book not found."; "Goodbye!"])
              (CLI.stdout c) =
         ["Book added."; "Book issued."; "Error: Book already issued to Alice.";
          "Error: Book not found."; "Goodbye!"].
Proof. eexists. split; [vm_compute; reflexivity|]. repeat split. Qed.

(** ** Options 2 and 3: lending *)

Lemma issue_flow_eq strip c isbn user rest :
  CLI.stdin c = isbn :: user :: rest →
  CLI.issue_flow strip c =
    CLI.try_print
      (issue_book (strip isbn) (strip user) (CLI.clock c (CLI.ticks c)))
      "Book issued."
      (CLI.mk (CLI.inventory c) rest (CLI.stdout c ++ ["ISBN: "; "Issue to: "])
              (CLI.clock c) (S (CLI.ticks c))).
Proof.
  intros Hin. destruct c as [inv sin out cl tk]. cbn in Hin. subst sin.
  unfold CLI.issue_flow.
  rewrite (bind_val _ _ _ _ _ (input_eq "ISBN: " (CLI.mk inv _ _ cl tk) isbn _ eq_refl)).
  rewrite (bind_val _ _ _ _ _ (input_eq "Issue to: " (CLI.mk inv _ _ cl tk) user _ eq_refl)).
  cbn [CLI.inventory CLI.stdin CLI.stdout CLI.clock CLI.ticks].
  unfold CLI.io_bind, CLI.now.
  cbn [CLI.inventory CLI.stdin CLI.stdout CLI.clock CLI.ticks].
  by rewrite <- !app_assoc.
Qed.

Lemma return_flow_eq strip c isbn rest :
  CLI.stdin c = isbn :: rest →
  CLI.return_flow strip c =
    CLI.try_print (return_book (strip isbn)) "Book returned."
      (CLI.mk (CLI.inventory c) rest (CLI.stdout c ++ ["ISBN: "])
              (CLI.clock c) (CLI.ticks c)).
Proof.
  intros Hin. destruct c as [inv sin out cl tk]. cbn in Hin. subst sin.
  unfold CLI.return_flow.
  by rewrite (bind_val _ _ _ _ _ (input_eq "ISBN: " (CLI.mk inv _ _ cl tk) isbn _ eq_refl)).
Qed.

Lemma try_print_eq m done c :
  CLI.try_print m done c =
    (CLI.Val tt,
     CLI.mk (m (CLI.inventory c)).2 (CLI.stdin c)
            (CLI.stdout c ++
               [match (m (CLI.inventory c)).1 with
                | Ok _ => done
                | Raise e => "Error: " +:+ str e
                end])
            (CLI.clock c) (CLI.ticks c)).
Proof.
  unfold CLI.try_print. by destruct (m (CLI.inventory c)) as [[[]|e] inv].
Qed.

(** X17. Option 2 of the menu, when two lines can be read.  After the two
    prompts exactly one more line is printed and the flow returns normally.
    If no book has the stripped ISBN, the line is "Error: Book with that
    ISBN not found." and the inventory is untouched.  If the first book
    with that ISBN is not available, the line is "Error: Book already
    issued to <its borrower>." and the inventory is untouched.  Otherwise
    the line is "Book issued." and that book, and no other, is now issued
    to the stripped user name at the time of the clock. *)
Theorem issue_flow_spec
    (strip : string → string) (c : CLI.t) (isbn user : string)
    (rest : list string) :
  CLI.stdin c = isbn :: user :: rest →
  ∃ line inv,
    CLI.issue_flow strip c =
      (CLI.Val tt,
       CLI.mk inv rest (CLI.stdout c ++ ["ISBN: "; "Issue to: "; line])
              (CLI.clock c) (S (CLI.ticks c))) ∧
    (((∀ b, b ∈ books (CLI.inventory c) → Book.isbn b ≠ strip isbn) ∧
      line = "Error: Book with that ISBN not found." ∧
      inv = CLI.inventory c) ∨
     (∃ i b, first_match (strip isbn) (books (CLI.inventory c)) i b ∧
        Book.status b ≠ "available" ∧
        line = "Error: Book already issued to " +:+ Book.issued_to b +:+ "." ∧
        inv = CLI.inventory c) ∨
     (∃ i b, first_match (strip isbn) (books (CLI.inventory c)) i b ∧
        Book.status b = "available" ∧
        line = "Book issued." ∧
        books inv =
          <[i := Book.mk (Book.title b) (Book.author b) (Book.isbn b) "issued"
                         (strip user) (isoformat (CLI.clock c (CLI.ticks c)))]>
            (books (CLI.inventory c)))).
Proof.
  intros Hin. rewrite (issue_flow_eq strip c isbn user rest Hin), try_print_eq.
  cbn [CLI.inventory CLI.stdin CLI.stdout CLI.clock CLI.ticks].
  set (time := CLI.clock c (CLI.ticks c)).
  lookup_cases (strip isbn) (books (CLI.inventory c)).
  - rewrite issue_book_absent by done. eexists _, _. split.
    + cbn [fst snd str]. by rewrite <- app_assoc.
    + left. done.
  - destruct (Book.is_available bk) eqn:E.
    + assert (Hok : (Book.issue (strip user) time bk).1 = Ok tt)
        by by rewrite issue_available.
      rewrite (issue_book_success _ _ _ _ _ _ Hfm Hok).
      rewrite save_to_file_ok. eexists _, _. split.
      * cbn [fst snd]. by rewrite <- app_assoc.
      * right; right. exists k, bk. split; [done|].
        split; [by apply is_available_true|]. split; [done|].
        by rewrite save_to_file_books, issue_available.
    + pose proof (issue_book_conflict _ _ (strip user) time _ _ _ Hfm
                    (f_equal fst (issue_unavailable (strip user) time bk E))) as Hc.
      rewrite Hc. eexists _, _. split.
      * cbn [fst snd str]. by rewrite <- app_assoc.
      * right; left. exists k, bk. split; [done|].
        split; [by apply is_available_false|done].
Qed.

Lemma issue_flow_spec_witness :
  ∃ line inv,
    CLI.issue_flow ascii_strip (CLI.mk shelf [" 222"; "Bob "; "7"] [] (λ _, noon) 0) =
      (CLI.Val tt,
       CLI.mk inv ["7"] ([] ++ ["ISBN: "; "Issue to: "; line]) (λ _, noon) 1).
Proof.
  destruct (issue_flow_spec ascii_strip
              (CLI.mk shelf [" 222"; "Bob "; "7"] [] (λ _, noon) 0)
              " 222" "Bob " ["7"] eq_refl)
    as (line & inv & H & _).
  exists line, inv. exact H.
Defined.

(** X18. Option 3 of the menu, when a line can be read.  After the prompt
    exactly one more line is printed and the flow returns normally.  If no
    book has the stripped ISBN, the line is "Error: Book not found." and
    the inventory is untouched.  If the first book with that ISBN is
    available, the line is "Error: Book is already available." and the
    inventory is untouched.  Otherwise the line is "Book returned." and
    that book, and no other, is now available with empty [issued_to] and
    [issued_on]. *)
Theorem return_flow_spec
    (strip : string → string) (c : CLI.t) (isbn : string) (rest : list string) :
  CLI.stdin c = isbn :: rest →
  ∃ line inv,
    CLI.return_flow strip c =
      (CLI.Val tt,
       CLI.mk inv rest (CLI.stdout c ++ ["ISBN: "; line])
              (CLI.clock c) (CLI.ticks c)) ∧
    (((∀ b, b ∈ books (CLI.inventory c) → Book.isbn b ≠ strip isbn) ∧
      line = "Error: Book not found." ∧ inv = CLI.inventory c) ∨
     (∃ i b, first_match (strip isbn) (books (CLI.inventory c)) i b ∧
        Book.status b = "available" ∧
        line = "Error: Book is already available." ∧
        inv = CLI.inventory c) ∨
     (∃ i b, first_match (strip isbn) (books (CLI.inventory c)) i b ∧
        Book.status b ≠ "available" ∧
        line = "Book returned." ∧
        books inv =
          <[i := Book.mk (Book.title b) (Book.author b) (Book.isbn b)
                         "available" "" ""]>
            (books (CLI.inventory c)))).
Proof.
  intros Hin. rewrite (return_flow_eq strip c isbn rest Hin), try_print_eq.
  cbn [CLI.inventory CLI.stdin CLI.stdout CLI.clock CLI.ticks].
  lookup_cases (strip isbn) (books (CLI.inventory c)).
  - rewrite return_book_absent by done. eexists _, _. split.
    + cbn [fst snd str]. by rewrite <- app_assoc.
    + left. done.
  - destruct (Book.is_available bk) eqn:E.
    + pose proof (return_book_conflict _ _ _ _ _ Hfm
                    (f_equal fst (return_available bk E))) as Hc.
      rewrite Hc. eexists _, _. split.
      * cbn [fst snd str]. by rewrite <- app_assoc.
      * right; left. exists k, bk. split; [done|].
        split; [by apply is_available_true|done].
    + assert (Hok : (Book.return_book bk).1 = Ok tt)
        by by rewrite return_unavailable.
      rewrite (return_book_success _ _ _ _ Hfm Hok).
      rewrite save_to_file_ok. eexists _, _. split.
      * cbn [fst snd]. by rewrite <- app_assoc.
      * right; right. exists k, bk. split; [done|].
        split; [by apply is_available_false|]. split; [done|].
        by rewrite save_to_file_books, return_unavailable.
Qed.

Lemma return_flow_spec_witness :
  ∃ line inv,
    CLI.return_flow ascii_strip (CLI.mk shelf ["111 "; "7"] [] (λ _, noon) 0) =
      (CLI.Val tt,
       CLI.mk inv ["7"] ([] ++ ["ISBN: "; line]) (λ _, noon) 0).
Proof.
  destruct (return_flow_spec ascii_strip
              (CLI.mk shelf ["111 "; "7"] [] (λ _, noon) 0) "111 " ["7"] eq_refl)
    as (line & inv & H & _).
  exists line, inv. exact H.
Defined.

(** ** Input that ends too early *)

(** X19. An option cut short by the end of the input changes nothing.  If
    fewer lines are left than option 1 (three), option 2 (two) or option 3
    (one) asks for, the flow ends with the EOFError of [input], all lines
    read, and the inventory (books, file and log) is what it was. *)
Theorem short_input_changes_nothing (strip : string → string) (c : CLI.t) :
  ((List.length (CLI.stdin c) < 3)%nat →
   (CLI.add_book_flow strip c).1 = CLI.EOFError ∧
   CLI.stdin (CLI.add_book_flow strip c).2 = [] ∧
   CLI.inventory (CLI.add_book_flow strip c).2 = CLI.inventory c) ∧
  ((List.length (CLI.stdin c) < 2)%nat →
   (CLI.issue_flow strip c).1 = CLI.EOFError ∧
   CLI.stdin (CLI.issue_flow strip c).2 = [] ∧
   CLI.inventory (CLI.issue_flow strip c).2 = CLI.inventory c) ∧
  ((List.length (CLI.stdin c) < 1)%nat →
   (CLI.return_flow strip c).1 = CLI.EOFError ∧
   CLI.stdin (CLI.return_flow strip c).2 = [] ∧
   CLI.inventory (CLI.return_flow strip c).2 = CLI.inventory c).
Proof.
  destruct c as [inv sin out cl tk]. cbn [CLI.stdin CLI.inventory].
  split; [|split]; intros Hlen.
  - destruct sin as [|t [|a [|i rest]]]; [done..|simpl in Hlen; lia].
  - destruct sin as [|isbn [|user rest]]; [done..|simpl in Hlen; lia].
  - destruct sin as [|isbn rest]; [done|simpl in Hlen; lia].
Qed.

Lemma short_input_changes_nothing_witness :
  (CLI.add_book_flow ascii_strip (CLI.mk shelf ["Solaris"; "Lem"] [] (λ _, noon) 0)).1 =
    CLI.EOFError ∧
  CLI.inventory
    (CLI.add_book_flow ascii_strip (CLI.mk shelf ["Solaris"; "Lem"] [] (λ _, noon) 0)).2 =
    shelf.
Proof.
  destruct (short_input_changes_nothing ascii_strip
              (CLI.mk shelf ["Solaris"; "Lem"] [] (λ _, noon) 0)) as [H _].
  destruct (H (Nat.lt_succ_diag_r 2)) as (H1 & _ & H3).
  split; [exact H1|exact H3].
Defined.
